(** * AltTabHide: the filtering logic of the GNOME Shell extension

    A shallow embedding of [extension.js] (both shipped flavours,
    [alttabhide@koter84.github.com] and [alttabhide@koter84.github.io]) and of
    the settings mutations of [prefs.js], followed by the properties the
    design document states about them.

    JavaScript objects that the code shares and mutates in place (the icons
    array of the switcher list, the arrays of windows returned by the host)
    live in a store indexed by references; host calls and log lines are
    recorded in a trace, so that "was the tracker consulted" is a question
    about the trace. *)

From stdpp Require Import base option list strings gmap sorting.

Set Default Proof Using "Type".

(** ** Handles and host objects *)

(** The two flavours have the same control flow; only the [.com] one logs. *)
Inductive flavour := GithubCom | GithubIo.

(** [Shell.App]: the only member the extension uses is [get_id()]. *)
Record App := { app_id : string }.

(** [Meta.Window]: an opaque handle, compared by identity. *)
Definition Window := nat.

(** An entry of the icons array: [appIcon.app] may be absent. *)
Record AppIcon := { app : option App }.

(** [this._items[i]] may itself be null or undefined. *)
Definition icon_entry := option AppIcon.

(** The settings object: [get_strv('hidden-apps')]. *)
Record Settings := { hidden_apps : list string }.

(** The extension instance: [this._settings] is null before [enable()] and
    after [disable()]. *)
Record Extension := {
  ext_flavour : flavour;
  _settings : option Settings
}.

(** References to arrays in the store. *)
Definition loc := nat.

(** The actors the switcher list shows, one per icon. *)
Definition actor := nat.

(** [this._switcherList]: [icons] is the backing array (absent when the host
    object has no such field), [removeItem] tells whether
    [typeof this._switcherList.removeItem === 'function'], and [sl_items] is
    the visual list the host method works on. *)
Record SwitcherList := {
  icons : option loc;
  removeItem : bool;
  sl_items : list actor
}.

Inductive popup_kind :=
  WindowSwitcherPopup | WindowCyclerPopup | GroupCyclerPopup.

(** The [log(...)] lines of the [.com] flavour, one constructor per call
    site, carrying the interpolated values. *)
Inductive log_msg :=
| LogHidingApp (appId : string)
| LogHidingWindow (appId : string)
| LogInitCalled
| LogChecking (originalCount : nat) (hiddenApps : list string)
| LogWillRemove (i : nat) (appId : string)
| LogFilteredApps (removed originalCount : nat) (newLength : option nat)
| LogCalled (k : popup_kind)
| LogFilteredWindows (removed : nat) (k : popup_kind).

Inductive event :=
| EvLog (m : log_msg)
| EvGetStrv
| EvGetWindowApp (w : Window)
| EvGetId (a : App)
| EvSplice (arr : loc) (idx : nat)
| EvRemoveItem (idx : nat).

Inductive js_error := TypeError (what : string).

(** ** The world the wrappers run in

    A reference that [icon_heap] does not bind stands for an object that is
    not an array (its [length] is undefined and it has no [splice]). *)
Record World := {
  icon_heap : gmap loc (list icon_entry);
  win_heap : gmap loc (list Window);
  popup_items : option loc;
  popup_switcherList : option SwitcherList;
  trace : list event
}.

Definition set_icon_heap (h : gmap loc (list icon_entry)) (w : World) : World :=
  {| icon_heap := h; win_heap := win_heap w; popup_items := popup_items w;
     popup_switcherList := popup_switcherList w; trace := trace w |}.

Definition set_win_heap (h : gmap loc (list Window)) (w : World) : World :=
  {| icon_heap := icon_heap w; win_heap := h; popup_items := popup_items w;
     popup_switcherList := popup_switcherList w; trace := trace w |}.

Definition set_popup_items (i : option loc) (w : World) : World :=
  {| icon_heap := icon_heap w; win_heap := win_heap w; popup_items := i;
     popup_switcherList := popup_switcherList w; trace := trace w |}.

Definition set_popup_switcherList (s : option SwitcherList) (w : World) : World :=
  {| icon_heap := icon_heap w; win_heap := win_heap w;
     popup_items := popup_items w; popup_switcherList := s; trace := trace w |}.

Definition add_event (e : event) (w : World) : World :=
  {| icon_heap := icon_heap w; win_heap := win_heap w;
     popup_items := popup_items w;
     popup_switcherList := popup_switcherList w; trace := trace w ++ [e] |}.

(** ** A state and exception monad *)

Inductive outcome (A : Type) :=
| Ok (a : A) (w : World)
| Throw (e : js_error) (w : World).
Arguments Ok {A} a w.
Arguments Throw {A} e w.

Definition M (A : Type) : Type := World → outcome A.

Definition ret {A} (a : A) : M A := λ w, Ok a w.

Definition bind {A B} (m : M A) (k : A → M B) : M B :=
  λ w, match m w with
       | Ok a w' => k a w'
       | Throw e w' => Throw e w'
       end.

Definition throw {A} (e : js_error) : M A := λ w, Throw e w.

Definition emit (e : event) : M unit := λ w, Ok tt (add_event e w).

Definition get_world : M World := λ w, Ok w w.

Declare Scope js_scope.
Delimit Scope js_scope with js.
Notation "x <- m ;; k" := (bind m (λ x, k))
  (at level 100, m at next level, right associativity) : js_scope.
Notation "m ;; k" := (bind m (λ _, k))
  (at level 100, right associativity) : js_scope.
Local Open Scope js_scope.

(** ** extension.js *)

(** [log] is a no-op in the [.io] flavour, whose source has no log lines. *)
Definition log (self : Extension) (m : log_msg) : M unit :=
  match ext_flavour self with
  | GithubCom => emit (EvLog m)
  | GithubIo => ret tt
  end.

(** [Array.prototype.includes] on an array of strings. *)
Fixpoint includes (l : list string) (x : string) : bool :=
  match l with
  | [] => false
  | y :: l' => if String.eqb y x then true else includes l' x
  end.

Definition get_strv (s : Settings) : M (list string) :=
  emit EvGetStrv ;; ret (hidden_apps s).

Definition get_id (a : App) : M string :=
  emit (EvGetId a) ;; ret (app_id a).

Definition _getHiddenApps (self : Extension) : M (list string) :=
  match _settings self with
  | None => ret []
  | Some s => get_strv s
  end.

Definition _shouldHideApp (self : Extension) (app : option App) : M bool :=
  hiddenApps <- _getHiddenApps self ;;
  match length hiddenApps =? 0, app with
  | true, _ => ret false
  | false, None => ret false
  | false, Some a =>
      appId <- get_id a ;;
      let shouldHide := includes hiddenApps appId in
      (if shouldHide then log self (LogHidingApp appId) else ret tt) ;;
      ret shouldHide
  end.

(** [Shell.WindowTracker.get_default().get_window_app(window)]; the tracker
    is the host's, so it is a parameter. *)
Definition tracker_get_window_app (get_window_app : Window → option App)
    (window : Window) : M (option App) :=
  emit (EvGetWindowApp window) ;; ret (get_window_app window).

Definition _shouldHideWindow (self : Extension)
    (get_window_app : Window → option App) (window : Window) : M bool :=
  hiddenApps <- _getHiddenApps self ;;
  if length hiddenApps =? 0 then ret false
  else
    app <- tracker_get_window_app get_window_app window ;;
    match app with
    | None => ret false
    | Some a =>
        appId <- get_id a ;;
        let shouldHide := includes hiddenApps appId in
        (if shouldHide then log self (LogHidingWindow appId) else ret tt) ;;
        ret shouldHide
    end.

(** *** The override of [AppSwitcherPopup.prototype._init] *)

(** The first loop, [for (let i = 0; i < this._items.length; i++)]: [items]
    is what is left of the array from index [i] on. Nothing in the body
    writes to the array, so its contents are read once. *)
Fixpoint mark_loop (self : Extension) (hiddenApps : list string)
    (items : list icon_entry) (i : nat) (indicesToRemove : list nat)
    : M (list nat) :=
  match items with
  | [] => ret indicesToRemove
  | appIcon :: rest =>
      match appIcon with
      | Some {| app := Some a |} =>
          appId <- get_id a ;;
          if includes hiddenApps appId then
            log self (LogWillRemove i appId) ;;
            mark_loop self hiddenApps rest (S i) (indicesToRemove ++ [i])
          else mark_loop self hiddenApps rest (S i) indicesToRemove
      | _ => mark_loop self hiddenApps rest (S i) indicesToRemove
      end
  end.

(** [this._switcherList.icons.splice(idx, 1)]. *)
Definition splice_icons (s : SwitcherList) (idx : nat) : M unit :=
  match icons s with
  | None => throw (TypeError "this._switcherList.icons is undefined")
  | Some arr =>
      w <- get_world ;;
      match icon_heap w !! arr with
      | None => throw (TypeError "this._switcherList.icons.splice is not a function")
      | Some content =>
          emit (EvSplice arr idx) ;;
          λ w', Ok tt (set_icon_heap (<[arr := delete idx content]> (icon_heap w')) w')
      end
  end.

(** Modelled from the spec: the host's [SwitcherList.removeItem(index)],
    which is not part of this repository; it takes the item at [index] out of
    the visual list. *)
Definition call_removeItem (idx : nat) : M unit :=
  emit (EvRemoveItem idx) ;;
  λ w, Ok tt (set_popup_switcherList
                (match popup_switcherList w with
                 | Some s => Some {| icons := icons s; removeItem := removeItem s;
                                     sl_items := delete idx (sl_items s) |}
                 | None => None
                 end) w).

(** The second loop, [for (let i = indicesToRemove.length - 1; i >= 0; i--)]:
    it is run on the reversed list of marked indices. *)
Fixpoint remove_loop (reversed : list nat) : M unit :=
  match reversed with
  | [] => ret tt
  | idx :: rest =>
      w <- get_world ;;
      match popup_switcherList w with
      | Some s =>
          if removeItem s then splice_icons s idx ;; call_removeItem idx
          else ret tt
      | None => ret tt
      end ;;
      remove_loop rest
  end.

(** [this._items = this._switcherList.icons]. *)
Definition update_items_reference : M unit :=
  w <- get_world ;;
  match popup_switcherList w with
  | None => throw (TypeError "this._switcherList is undefined")
  | Some s => λ w', Ok tt (set_popup_items (icons s) w')
  end.

(** The last log line interpolates [this._items.length]; only the [.com]
    flavour has it. *)
Definition log_filtered (self : Extension) (removed originalCount : nat) : M unit :=
  match ext_flavour self with
  | GithubIo => ret tt
  | GithubCom =>
      w <- get_world ;;
      match popup_items w with
      | None => throw (TypeError "this._items is undefined")
      | Some arr =>
          log self (LogFilteredApps removed originalCount
                      (length <$> icon_heap w !! arr))
      end
  end.

Definition AppSwitcherPopup_init (self : Extension) (originalMethod : M unit)
    : M unit :=
  log self LogInitCalled ;;
  originalMethod ;;
  w <- get_world ;;
  match popup_items w with
  | None => ret tt
  | Some arr =>
      match icon_heap w !! arr with
      | None => ret tt
      | Some items =>
          if 0 <? length items then
            let originalCount := length items in
            hiddenApps <- _getHiddenApps self ;;
            log self (LogChecking originalCount hiddenApps) ;;
            indicesToRemove <- mark_loop self hiddenApps items 0 [] ;;
            remove_loop (reverse indicesToRemove) ;;
            update_items_reference ;;
            log_filtered self (length indicesToRemove) originalCount
          else ret tt
      end
  end.

(** *** The three window-list overrides *)

(** [Array.prototype.filter] with a callback that runs in the monad. *)
Fixpoint filterM (f : Window → M bool) (l : list Window) : M (list Window) :=
  match l with
  | [] => ret []
  | x :: l' =>
      keep <- f x ;;
      rest <- filterM f l' ;;
      ret (if keep then x :: rest else rest)
  end.

(** [filter] returns a newly allocated array. *)
Definition alloc_windows (ws : list Window) : M loc :=
  λ w, let l := fresh (dom (win_heap w)) in
       Ok l (set_win_heap (<[l := ws]> (win_heap w)) w).

(** The body the three overrides share; they differ in the name they log. *)
Definition filtered_window_list (k : popup_kind) (self : Extension)
    (get_window_app : Window → option App) (originalMethod : M loc) : M loc :=
  log self (LogCalled k) ;;
  windows <- originalMethod ;;
  w <- get_world ;;
  match win_heap w !! windows with
  | None => throw (TypeError "windows.filter is not a function")
  | Some ws =>
      filtered <- filterM (λ window,
                    hide <- _shouldHideWindow self get_window_app window ;;
                    ret (negb hide)) ws ;;
      filteredWindows <- alloc_windows filtered ;;
      log self (LogFilteredWindows (length ws - length filtered) k) ;;
      ret filteredWindows
  end.

Definition WindowSwitcherPopup_getWindowList :=
  filtered_window_list WindowSwitcherPopup.

Definition WindowCyclerPopup_getWindows :=
  filtered_window_list WindowCyclerPopup.

Definition GroupCyclerPopup_getWindows :=
  filtered_window_list GroupCyclerPopup.

(** ** prefs.js: the two mutations of the [hidden-apps] key

    The panel's state is the stored sequence and the [active] flag of the
    check buttons it created, keyed by application identifier. *)
Module Prefs.

Record State := {
  stored : list string;
  checkboxes : gmap string bool
}.

Definition set_strv (l : list string) (st : State) : State :=
  {| stored := l; checkboxes := checkboxes st |}.

Definition _onAppToggled (appId : string) (isActive : bool) (st : State) : State :=
  let hiddenApps := stored st in
  let hiddenApps :=
    if isActive && negb (includes hiddenApps appId) then hiddenApps ++ [appId]
    else if negb isActive && includes hiddenApps appId then
      filter (λ id, id ≠ appId) hiddenApps
    else hiddenApps in
  set_strv hiddenApps st.

(** [checkbox.set_active(b)]: the toolkit emits [toggled] only when the flag
    changes, and the handler connected in [_loadInstalledApps] then calls
    [_onAppToggled(appId, checkbox.get_active())]. *)
Definition set_active (appId : string) (b : bool) (st : State) : State :=
  match checkboxes st !! appId with
  | None => st
  | Some cur =>
      if bool_decide (cur = b) then st
      else _onAppToggled appId b
             {| stored := stored st; checkboxes := <[appId := b]> (checkboxes st) |}
  end.

(** The user clicks a check button: the flag flips and the handler runs. *)
Definition click_checkbox (appId : string) (st : State) : State :=
  match checkboxes st !! appId with
  | None => st
  | Some cur => set_active appId (negb cur) st
  end.

Definition _removeHiddenApp (appId : string) (st : State) : State :=
  let hiddenApps := filter (λ id, id ≠ appId) (stored st) in
  let st := set_strv hiddenApps st in
  match checkboxes st !! appId with
  | Some _ => set_active appId false st
  | None => st
  end.

End Prefs.

(** ** Vocabulary for the statements *)

(** The sequence a filtering decision works with: the stored one, or the
    empty one while [this._settings] is null. *)
Definition hidden_set (self : Extension) : list string :=
  match _settings self with
  | None => []
  | Some s => hidden_apps s
  end.

Definition with_hidden (fl : flavour) (H : list string) : Extension :=
  {| ext_flavour := fl; _settings := Some {| hidden_apps := H |} |}.

Definition add_events (es : list event) (w : World) : World :=
  {| icon_heap := icon_heap w; win_heap := win_heap w;
     popup_items := popup_items w;
     popup_switcherList := popup_switcherList w; trace := trace w ++ es |}.

Definition settings_events (self : Extension) : list event :=
  match _settings self with
  | None => []
  | Some _ => [EvGetStrv]
  end.

Definition log_events (self : Extension) (m : log_msg) : list event :=
  match ext_flavour self with
  | GithubCom => [EvLog m]
  | GithubIo => []
  end.

(** The application an icon entry stands for, when it has one. *)
Definition entry_app (e : icon_entry) : option App :=
  match e with
  | Some {| app := Some a |} => Some a
  | _ => None
  end.

Definition entry_hidden (H : list string) (e : icon_entry) : bool :=
  match entry_app e with
  | Some a => includes H (app_id a)
  | None => false
  end.

Definition window_hidden (H : list string)
    (get_window_app : Window → option App) (window : Window) : bool :=
  match get_window_app window with
  | Some a => includes H (app_id a)
  | None => false
  end.

(** The positions, counted from [i], of the elements that satisfy [P]. *)
Fixpoint marked_from {A} (P : A → bool) (l : list A) (i : nat) : list nat :=
  match l with
  | [] => []
  | x :: l' => (if P x then [i] else []) ++ marked_from P l' (S i)
  end.

(** [delete_each idxs l]: take the elements at [idxs] out of [l], one after
    the other, each index being read against the list as it then is. *)
Definition delete_each {A} (idxs : list nat) (l : list A) : list A :=
  foldl (λ acc idx, delete idx acc) l idxs.

(** The events of one round of the second loop on the array [arr]. *)
Definition removal_events (arr : loc) (idxs : list nat) : list event :=
  idxs ≫= λ idx, [EvSplice arr idx; EvRemoveItem idx].

(** The indices handed to [removeItem], in the order of the calls. *)
Fixpoint removal_order (es : list event) : list nat :=
  match es with
  | [] => []
  | EvRemoveItem idx :: es' => idx :: removal_order es'
  | _ :: es' => removal_order es'
  end.

(** The indices spliced out of the array [arr], in the order of the calls. *)
Fixpoint splice_order (arr : loc) (es : list event) : list nat :=
  match es with
  | [] => []
  | EvSplice arr' idx :: es' =>
      if bool_decide (arr' = arr) then idx :: splice_order arr es'
      else splice_order arr es'
  | _ :: es' => splice_order arr es'
  end.

(** [returns m a]: whatever the world, [m] completes with the value [a]. *)
Definition returns {A} (m : M A) (a : A) : Prop :=
  ∀ w, ∃ w', m w = Ok a w'.

(** The three window-list overrides, each with the name it logs. *)
Definition window_list_overrides
    : list (popup_kind * (Extension → (Window → option App) → M loc → M loc)) :=
  [ (WindowSwitcherPopup, WindowSwitcherPopup_getWindowList);
    (WindowCyclerPopup, WindowCyclerPopup_getWindows);
    (GroupCyclerPopup, GroupCyclerPopup_getWindows) ].

(** Whether an event looks at a candidate: a tracker lookup or a [get_id]. *)
Definition inspects_candidate (e : event) : bool :=
  match e with
  | EvGetWindowApp _ | EvGetId _ => true
  | _ => false
  end.

(** ** A small desktop, for the examples *)

Definition calculator : App := {| app_id := "org.gnome.Calculator.desktop" |}.
Definition files : App := {| app_id := "org.gnome.Nautilus.desktop" |}.

Definition hides_calculator (fl : flavour) : Extension :=
  with_hidden fl ["org.gnome.Calculator.desktop"].

(** Window 1 belongs to the calculator, window 2 to the file manager, and
    the tracker knows no application for any other window. *)
Definition example_tracker (window : Window) : option App :=
  match window with
  | 1 => Some calculator
  | 2 => Some files
  | _ => None
  end.

Definition icon_of (a : App) : icon_entry := Some {| app := Some a |}.

(** A switcher as the host builds it: [this._items] and
    [this._switcherList.icons] are the array at reference 0, which holds the
    calculator, an icon without application, and the file manager. *)
Definition example_switcher : World :=
  {| icon_heap := {[ 0 := [icon_of calculator; Some {| app := None |}; icon_of files] ]};
     win_heap := {[ 7 := [1; 3; 2] ]};
     popup_items := Some 0;
     popup_switcherList :=
       Some {| icons := Some 0; removeItem := true; sl_items := [10; 11; 12] |};
     trace := [] |}.

(** The same switcher after a change of shape in the host: the list of
    items is there, the switcher list is not. *)
Definition example_switcher_without_list : World :=
  {| icon_heap := {[ 0 := [icon_of files] ]};
     win_heap := ∅;
     popup_items := Some 0;
     popup_switcherList := None;
     trace := [] |}.

(** ** extension.js: the life cycle of the extension object

    [constructor], [enable], [disable], [_logHiddenApps] and the
    registration part of [_setupAltTabFiltering], as transformers of the
    fields of the extension object that also list the host calls they make,
    in order. *)
Module Lifecycle.

(** The host methods [_setupAltTabFiltering] overrides. *)
Inductive target :=
| AppSwitcherPopup__init
| WindowList (k : popup_kind).

(** The log lines of [enable], [disable], [_logHiddenApps] and
    [_setupAltTabFiltering] in the [.com] flavour. *)
Inductive life_log :=
| LogEnabling
| LogSettingUp
| LogSetupComplete
| LogCurrentlyHidden (hiddenApps : list string)
| LogEnabled
| LogDisabling
| LogDisabled.

Inductive host_call :=
| HLog (m : life_log)
| HGetSettings
| HNewInjectionManager
| HOverrideMethod (t : target)
| HConnectChanged (id : nat)
| HDisconnect (id : nat)
| HClear (overridden : list target)
| HRunDispose
| HGetStrv.

(** Modelled from the spec: the host's [InjectionManager], which is not part
    of this repository, is the record of the methods it has overridden;
    [clear()] gives all of them back. [_injectionManager] holds that record.
    [_settingsChangedId] is the number [connect] returned; the [.io] flavour
    has no such field and leaves it absent. *)
Record Instance := {
  flavour_of : flavour;
  _settings : option Settings;
  _injectionManager : option (list target);
  _settingsChangedId : option nat
}.

Definition as_extension (this : Instance) : Extension :=
  Build_Extension (flavour_of this) (_settings this).

Definition constructor (fl : flavour) : Instance :=
  {| flavour_of := fl; _settings := None; _injectionManager := None;
     _settingsChangedId := None |}.

Definition set_settings (s : option Settings) (this : Instance) : Instance :=
  {| flavour_of := flavour_of this; _settings := s;
     _injectionManager := _injectionManager this;
     _settingsChangedId := _settingsChangedId this |}.

Definition set_injectionManager (m : option (list target)) (this : Instance)
    : Instance :=
  {| flavour_of := flavour_of this; _settings := _settings this;
     _injectionManager := m; _settingsChangedId := _settingsChangedId this |}.

Definition set_settingsChangedId (id : option nat) (this : Instance) : Instance :=
  {| flavour_of := flavour_of this; _settings := _settings this;
     _injectionManager := _injectionManager this; _settingsChangedId := id |}.

Definition llog (this : Instance) (m : life_log) : list host_call :=
  match flavour_of this with
  | GithubCom => [HLog m]
  | GithubIo => []
  end.

(** [_logHiddenApps], with the read of [_getHiddenApps] it starts with. *)
Definition _logHiddenApps (this : Instance) : list host_call :=
  match _settings this with
  | None => llog this (LogCurrentlyHidden [])
  | Some s => HGetStrv :: llog this (LogCurrentlyHidden (hidden_apps s))
  end.

(** The four targets, in the order of the calls to [overrideMethod]. *)
Definition overridden_targets : list target :=
  [ AppSwitcherPopup__init; WindowList WindowSwitcherPopup;
    WindowList WindowCyclerPopup; WindowList GroupCyclerPopup ].

(** [this._injectionManager.overrideMethod(...)]: a [TypeError] ([None])
    when there is no manager. *)
Definition overrideMethod (t : target) (this : Instance)
    : option (Instance * list host_call) :=
  match _injectionManager this with
  | None => None
  | Some overridden =>
      Some (set_injectionManager (Some (overridden ++ [t])) this,
            [HOverrideMethod t])
  end.

Fixpoint overrideMethods (ts : list target) (this : Instance)
    : option (Instance * list host_call) :=
  match ts with
  | [] => Some (this, [])
  | t :: ts' =>
      match overrideMethod t this with
      | None => None
      | Some (this', c1) =>
          match overrideMethods ts' this' with
          | None => None
          | Some (this'', c2) => Some (this'', c1 ++ c2)
          end
      end
  end.

Definition _setupAltTabFiltering (this : Instance)
    : option (Instance * list host_call) :=
  match overrideMethods overridden_targets this with
  | None => None
  | Some (this', c) =>
      Some (this', llog this LogSettingUp ++ c ++ llog this LogSetupComplete)
  end.

(** [enable()]: [getSettings] is the object [this.getSettings()] returns and
    [id] the handler id [connect] returns; the [.io] flavour connects
    nothing and logs nothing. *)
Definition enable (getSettings : Settings) (id : nat) (this : Instance)
    : option (Instance * list host_call) :=
  let c0 := llog this LogEnabling in
  let this := set_settings (Some getSettings) this in
  let this := set_injectionManager (Some []) this in
  match _setupAltTabFiltering this with
  | None => None
  | Some (this, c1) =>
      match flavour_of this with
      | GithubCom =>
          let this := set_settingsChangedId (Some id) this in
          Some (this,
                c0 ++ [HGetSettings; HNewInjectionManager] ++ c1
                ++ [HConnectChanged id] ++ _logHiddenApps this
                ++ llog this LogEnabled)
      | GithubIo =>
          Some (this, [HGetSettings; HNewInjectionManager] ++ c1)
      end
  end.

(** [disable()]. The test [this._settings && this._settingsChangedId] fails
    for the id 0, as for an absent one. *)
Definition disable (this : Instance) : Instance * list host_call :=
  match flavour_of this with
  | GithubCom =>
      let '(this1, c1) :=
        match _settings this, _settingsChangedId this with
        | Some _, Some (S n) =>
            (set_settingsChangedId None this, [HDisconnect (S n)])
        | _, _ => (this, [])
        end in
      let '(this2, c2) :=
        match _injectionManager this1 with
        | Some overridden =>
            (set_injectionManager None this1, [HClear overridden])
        | None => (this1, [])
        end in
      let '(this3, c3) :=
        match _settings this2 with
        | Some _ => (set_settings None this2, [HRunDispose])
        | None => (this2, [])
        end in
      (this3, [HLog LogDisabling] ++ c1 ++ c2 ++ c3 ++ [HLog LogDisabled])
  | GithubIo =>
      let '(this1, c1) :=
        match _injectionManager this with
        | Some overridden =>
            (set_injectionManager None this, [HClear overridden])
        | None => (this, [])
        end in
      match _settings this1 with
      | Some _ => (set_settings None this1, c1)
      | None => (this1, c1)
      end
  end.

(** The targets of the [overrideMethod] calls of a call list, in order. *)
Fixpoint registered (c : list host_call) : list target :=
  match c with
  | [] => []
  | HOverrideMethod t :: c' => t :: registered c'
  | _ :: c' => registered c'
  end.

(** The calls of a call list that release something. *)
Definition releases (c : host_call) : bool :=
  match c with
  | HDisconnect _ | HClear _ | HRunDispose => true
  | _ => false
  end.

End Lifecycle.

(** ** prefs.js: the rows of the panel *)
Module PrefsUI.

(** [Gio.AppInfo]: what [_loadInstalledApps] asks of an installed
    application; [get_id()] and [get_display_name()] may give null. *)
Record AppInfo := {
  info_should_show : bool;
  info_get_id : option string;
  info_get_display_name : option string
}.

(** A row of the list of available applications, with the two lower-cased
    fields [_loadInstalledApps] stores on it for the search. *)
Record AppRow := {
  row_title : string;
  row_subtitle : string;
  _appName : string;
  _appId : string;
  visible : bool
}.

(** A row of the list of hidden applications: the placeholder, or the row of
    an identifier, whose remove button calls [_removeHiddenApp(subtitle)]. *)
Inductive HiddenRow :=
| NoHiddenAppsRow
| HiddenAppRow (title subtitle : string).

Record Panel := {
  state : Prefs.State;
  _hiddenAppRows : list HiddenRow;
  _appRows : list AppRow
}.

(** A string that is neither null nor empty, as [!s] tests it. *)
Definition truthy (o : option string) : option string :=
  match o with
  | Some s => if bool_decide (s = "") then None else Some s
  | None => None
  end.

(** [String.prototype.includes]: [p] occurs in [s]. *)
Fixpoint str_includes (s p : string) : bool :=
  String.prefix p s ||
  match s with
  | EmptyString => false
  | String _ s' => str_includes s' p
  end.

Definition set_visible (b : bool) (row : AppRow) : AppRow :=
  {| row_title := row_title row; row_subtitle := row_subtitle row;
     _appName := _appName row; _appId := _appId row; visible := b |}.

Definition _filterApps (searchText : string) (p : Panel) : Panel :=
  {| state := state p; _hiddenAppRows := _hiddenAppRows p;
     _appRows :=
       (λ row, set_visible (bool_decide (searchText = "")
                            || str_includes (_appName row) searchText
                            || str_includes (_appId row) searchText) row)
       <$> _appRows p |}.

(** The loop of [_loadInstalledApps] over the sorted applications. *)
Fixpoint load_loop (toLowerCase : string → string) (hiddenApps : list string)
    (visibleApps : list AppInfo) (checkboxes : gmap string bool)
    (appRows : list AppRow) : gmap string bool * list AppRow :=
  match visibleApps with
  | [] => (checkboxes, appRows)
  | app :: rest =>
      match truthy (info_get_display_name app), truthy (info_get_id app) with
      | Some appName, Some appId =>
          let row := {| row_title := appName; row_subtitle := appId;
                        _appName := toLowerCase appName;
                        _appId := toLowerCase appId; visible := true |} in
          load_loop toLowerCase hiddenApps rest
            (<[appId := includes hiddenApps appId]> checkboxes)
            (appRows ++ [row])
      | _, _ => load_loop toLowerCase hiddenApps rest checkboxes appRows
      end
  end.

(** [_loadInstalledApps(hiddenApps)]. [apps] is [Gio.AppInfo.get_all()];
    [sort] is [Array.prototype.sort] with the comparator of the source, whose
    order is the locale's, and [toLowerCase] the method of the host's
    strings. *)
Definition _loadInstalledApps (sort : list AppInfo → list AppInfo)
    (toLowerCase : string → string) (apps : list AppInfo)
    (hiddenApps : list string) (p : Panel) : Panel :=
  let visibleApps := sort (filter (λ app, info_should_show app = true) apps) in
  let '(checkboxes, appRows) :=
    load_loop toLowerCase hiddenApps visibleApps
      (Prefs.checkboxes (state p)) [] in
  {| state := {| Prefs.stored := Prefs.stored (state p);
                 Prefs.checkboxes := checkboxes |};
     _hiddenAppRows := _hiddenAppRows p;
     _appRows := appRows |}.

(** [_updateHiddenAppsList()]. [display_name id] is the display name of
    [GioUnix.DesktopAppInfo.new(id)], when there is such an application. *)
Definition _updateHiddenAppsList (display_name : string → option string)
    (p : Panel) : Panel :=
  let hiddenApps := Prefs.stored (state p) in
  {| state := state p;
     _hiddenAppRows :=
       if length hiddenApps =? 0 then [NoHiddenAppsRow]
       else (λ appId, HiddenAppRow (default appId (display_name appId)) appId)
            <$> hiddenApps;
     _appRows := _appRows p |}.

Definition _buildUI (sort : list AppInfo → list AppInfo)
    (toLowerCase : string → string) (apps : list AppInfo)
    (display_name : string → option string) (p : Panel) : Panel :=
  let hiddenApps := Prefs.stored (state p) in
  let p := _updateHiddenAppsList display_name p in
  _loadInstalledApps sort toLowerCase apps hiddenApps p.

(** [_init(settings)], on a settings object that stores [hiddenApps]. *)
Definition _init (sort : list AppInfo → list AppInfo)
    (toLowerCase : string → string) (apps : list AppInfo)
    (display_name : string → option string) (hiddenApps : list string) : Panel :=
  _buildUI sort toLowerCase apps display_name
    {| state := {| Prefs.stored := hiddenApps; Prefs.checkboxes := ∅ |};
       _hiddenAppRows := []; _appRows := [] |}.

(** An action of the user on the settings and check buttons, followed by
    the [changed::hidden-apps] handler [_buildUI] connects. *)
Definition act (display_name : string → option string)
    (action : Prefs.State → Prefs.State) (p : Panel) : Panel :=
  _updateHiddenAppsList display_name
    {| state := action (state p); _hiddenAppRows := _hiddenAppRows p;
       _appRows := _appRows p |}.

(** The identifiers the list of hidden applications shows. *)
Definition shown_ids (rows : list HiddenRow) : list string :=
  rows ≫= λ row, match row with
                 | NoHiddenAppsRow => []
                 | HiddenAppRow _ subtitle => [subtitle]
                 end.

(** Every check button is active exactly when its identifier is stored. *)
Definition checkboxes_agree (st : Prefs.State) : Prop :=
  ∀ appId b, Prefs.checkboxes st !! appId = Some b →
             (b = true ↔ appId ∈ Prefs.stored st).

End PrefsUI.

(** More vocabulary for the traces of the wrappers. *)
Definition is_settings_read (e : event) : bool :=
  match e with EvGetStrv => true | _ => false end.

Definition is_tracker_lookup (e : event) : bool :=
  match e with EvGetWindowApp _ => true | _ => false end.

Definition is_log (e : event) : bool :=
  match e with EvLog _ => true | _ => false end.

Fixpoint count_events (f : event → bool) (es : list event) : nat :=
  match es with
  | [] => 0
  | e :: es' => (if f e then 1 else 0) + count_events f es'
  end.

(** [occurs p s]: the string [p] occurs somewhere in [s]. *)
Definition occurs (p s : string) : Prop :=
  ∃ a b, s = a +:+ p +:+ b.

(** A small installation, for the examples. *)
Definition example_apps : list PrefsUI.AppInfo :=
  [ {| PrefsUI.info_should_show := true;
       PrefsUI.info_get_id := Some "org.gnome.Nautilus.desktop";
       PrefsUI.info_get_display_name := Some "Files" |};
    {| PrefsUI.info_should_show := false;
       PrefsUI.info_get_id := Some "org.gnome.Shell.desktop";
       PrefsUI.info_get_display_name := Some "Shell" |};
    {| PrefsUI.info_should_show := true;
       PrefsUI.info_get_id := Some "org.gnome.Calculator.desktop";
       PrefsUI.info_get_display_name := Some "Calculator" |};
    {| PrefsUI.info_should_show := true;
       PrefsUI.info_get_id := None;
       PrefsUI.info_get_display_name := Some "Nameless" |} ].

Definition example_display_name (appId : string) : option string :=
  if bool_decide (appId = "org.gnome.Calculator.desktop") then Some "Calculator"
  else None.

Definition example_panel : PrefsUI.Panel :=
  PrefsUI._init id id example_apps example_display_name
    ["org.gnome.Calculator.desktop"].

(** * Properties *)

(** ** The monad and the world *)

Lemma add_events_nil w : add_events [] w = w.
Proof. destruct w; unfold add_events; simpl. by rewrite app_nil_r. Qed.

Lemma add_events_add_events es1 es2 w :
  add_events es2 (add_events es1 w) = add_events (es1 ++ es2) w.
Proof. unfold add_events; simpl. by rewrite app_assoc. Qed.

Lemma add_event_events e w : add_event e w = add_events [e] w.
Proof. done. Qed.

Lemma bind_ok {A B} (m : M A) (k : A → M B) w a w' :
  m w = Ok a w' → bind m k w = k a w'.
Proof. unfold bind. by intros ->. Qed.

Lemma log_run self m w : log self m w = Ok tt (add_events (log_events self m) w).
Proof.
  unfold log, log_events. destruct (ext_flavour self); [done|].
  by rewrite add_events_nil.
Qed.

Lemma get_id_run a w : get_id a w = Ok (app_id a) (add_events [EvGetId a] w).
Proof. done. Qed.

Lemma getHiddenApps_run self w :
  _getHiddenApps self w = Ok (hidden_set self) (add_events (settings_events self) w).
Proof.
  unfold _getHiddenApps, hidden_set, settings_events.
  destruct (_settings self); [done|]. by rewrite add_events_nil.
Qed.

Lemma removal_order_app es1 es2 :
  removal_order (es1 ++ es2) = removal_order es1 ++ removal_order es2.
Proof.
  induction es1 as [|[] es1 IH]; simpl; try done. by rewrite IH.
Qed.

Lemma splice_order_app arr es1 es2 :
  splice_order arr (es1 ++ es2) = splice_order arr es1 ++ splice_order arr es2.
Proof.
  induction es1 as [|[] es1 IH]; simpl; try done.
  case_bool_decide; simpl; by rewrite IH.
Qed.

Lemma removal_order_log self m : removal_order (log_events self m) = [].
Proof. unfold log_events. by destruct (ext_flavour self). Qed.

Lemma splice_order_log arr self m : splice_order arr (log_events self m) = [].
Proof. unfold log_events. by destruct (ext_flavour self). Qed.

Lemma removal_order_settings self : removal_order (settings_events self) = [].
Proof. unfold settings_events. by destruct (_settings self). Qed.

Lemma splice_order_settings arr self : splice_order arr (settings_events self) = [].
Proof. unfold settings_events. by destruct (_settings self). Qed.

(** ** [includes] *)

Lemma includes_true l x : includes l x = true ↔ x ∈ l.
Proof.
  induction l as [|y l IH]; simpl.
  - split; [done|]. by intros ?%elem_of_nil.
  - rewrite elem_of_cons. destruct (String.eqb y x) eqn:E.
    + apply String.eqb_eq in E. split; [by left|done].
    + apply String.eqb_neq in E. rewrite IH.
      split; [by right|]. intros [->|?]; done.
Qed.

Lemma includes_false l x : includes l x = false ↔ x ∉ l.
Proof. rewrite <-includes_true. by destruct (includes l x). Qed.

(** ** The two predicates *)

Lemma shouldHideApp_run self a w :
  ∃ es, _shouldHideApp self (Some a) w
        = Ok (includes (hidden_set self) (app_id a)) (add_events es w).
Proof.
  unfold _shouldHideApp.
  rewrite (bind_ok _ _ _ _ _ (getHiddenApps_run self w)).
  destruct (hidden_set self) as [|h H] eqn:EH; cbn [length Nat.eqb].
  - by eexists.
  - rewrite (bind_ok _ _ _ _ _ (get_id_run _ _)).
    cbv zeta. destruct (includes (h :: H) (app_id a)).
    + rewrite (bind_ok _ _ _ _ _ (log_run _ _ _)).
      rewrite !add_events_add_events. by eexists.
    + unfold bind, ret. rewrite !add_events_add_events. by eexists.
Qed.

Lemma shouldHideWindow_run self tracker window w :
  ∃ es, _shouldHideWindow self tracker window w
        = Ok (window_hidden (hidden_set self) tracker window) (add_events es w)
        ∧ removal_order es = [] ∧ win_heap (add_events es w) = win_heap w.
Proof.
  unfold _shouldHideWindow, window_hidden.
  rewrite (bind_ok _ _ _ _ _ (getHiddenApps_run self w)).
  destruct (hidden_set self) as [|h H] eqn:EH; cbn [length Nat.eqb].
  - eexists; split; [|split; [apply removal_order_settings|done]].
    unfold ret. by destruct (tracker window).
  - unfold tracker_get_window_app.
    unfold bind at 1. unfold bind at 1. unfold emit, ret at 1.
    destruct (tracker window) as [a|].
    + rewrite (bind_ok _ _ _ _ _ (get_id_run _ _)). cbv zeta.
      destruct (includes (h :: H) (app_id a)).
      * rewrite (bind_ok _ _ _ _ _ (log_run _ _ _)).
        rewrite add_event_events, !add_events_add_events.
        eexists; split; [done|]. split; [|done].
        rewrite !removal_order_app, removal_order_settings, removal_order_log. done.
      * unfold bind, ret.
        rewrite add_event_events, !add_events_add_events.
        eexists; split; [done|]. split; [|done].
        by rewrite !removal_order_app, removal_order_settings.
    + unfold ret. rewrite add_event_events, !add_events_add_events.
      eexists; split; [done|]. split; [|done].
      by rewrite !removal_order_app, removal_order_settings.
Qed.

(** ** Deleting the marked positions, highest first *)

Section delete_marked.
Context {A : Type} (P : A → bool).

Lemma marked_from_S (l : list A) i :
  marked_from P l (S i) = S <$> marked_from P l i.
Proof.
  revert i. induction l as [|x l IH]; intros i; [done|]. simpl.
  rewrite fmap_app, IH. by destruct (P x).
Qed.

Lemma delete_each_app (is1 is2 : list nat) (l : list A) :
  delete_each (is1 ++ is2) l = delete_each is2 (delete_each is1 l).
Proof. unfold delete_each. by rewrite foldl_app. Qed.

Lemma delete_each_S (idxs : list nat) x (l : list A) :
  delete_each (S <$> idxs) (x :: l) = x :: delete_each idxs l.
Proof.
  revert l. induction idxs as [|i idxs IH]; intros l; [done|].
  simpl. apply IH.
Qed.

Lemma delete_each_marked (l : list A) :
  delete_each (reverse (marked_from P l 0)) l = filter (λ x, ¬ P x) l.
Proof.
  induction l as [|x l IH]; [done|]. simpl.
  rewrite marked_from_S, reverse_app, delete_each_app, <-fmap_reverse.
  rewrite delete_each_S, IH. destruct (P x) eqn:E.
  - rewrite filter_cons_False; [reflexivity|]. rewrite E. intros Hn. by apply Hn.
  - rewrite filter_cons_True; [reflexivity|]. rewrite E. intros Hn. exact Hn.
Qed.

Lemma marked_from_lt (l : list A) i j :
  j ∈ marked_from P l i → i ≤ j < i + length l.
Proof.
  revert i. induction l as [|x l IH]; intros i; simpl.
  - by intros ?%elem_of_nil.
  - rewrite elem_of_app. intros [Hj|Hj].
    + destruct (P x); [|by apply elem_of_nil in Hj].
      apply list_elem_of_singleton in Hj. lia.
    + apply IH in Hj. lia.
Qed.

Lemma marked_from_lookup (l : list A) i j :
  j ∈ marked_from P l i ↔ ∃ x, l !! (j - i) = Some x ∧ i ≤ j ∧ P x = true.
Proof.
  revert i. induction l as [|x l IH]; intros i; simpl.
  - split; [by intros ?%elem_of_nil|]. by intros (? & ? & _).
  - rewrite elem_of_app, IH. split.
    + intros [Hj|(y & Hy & Hle & HP)].
      * destruct (P x) eqn:E; [|by apply elem_of_nil in Hj].
        apply list_elem_of_singleton in Hj as ->.
        exists x. by rewrite Nat.sub_diag.
      * exists y. split; [|split; [lia|done]].
        replace (j - i) with (S (j - S i)) by lia. done.
    + intros (y & Hy & Hle & HP).
      destruct (decide (j = i)) as [->|Hne].
      * left. rewrite Nat.sub_diag in Hy. simplify_eq/=. rewrite HP.
        by apply list_elem_of_singleton.
      * right. exists y. split; [|split; [lia|done]].
        replace (j - i) with (S (j - S i)) in Hy by lia. done.
Qed.

(** The marks come out in increasing order, so the second loop, which
    walks them backwards, meets them in decreasing order. *)
Lemma marked_from_sorted (l : list A) i :
  StronglySorted lt (marked_from P l i).
Proof.
  revert i. induction l as [|x l IH]; intros i; simpl; [constructor|].
  destruct (P x); simpl; [|apply IH].
  constructor; [apply IH|]. apply Forall_forall. intros j Hj.
  apply marked_from_lt in Hj. lia.
Qed.
End delete_marked.

Lemma StronglySorted_reverse_lt (l : list nat) :
  StronglySorted lt l → StronglySorted gt (reverse l).
Proof.
  induction 1 as [|x l Hl IH Hx]; [constructor|].
  rewrite reverse_cons. apply StronglySorted_app_2; [|done|repeat constructor].
  intros a b Ha Hb. apply list_elem_of_singleton in Hb as ->.
  rewrite elem_of_reverse in Ha. rewrite Forall_forall in Hx.
  unfold gt. by apply Hx.
Qed.

(** ** The two loops of the [_init] override *)

Lemma bind_assoc {A B C} (m : M A) (f : A → M B) (g : B → M C) w :
  bind (bind m f) g w = bind m (λ x, bind (f x) g) w.
Proof. unfold bind. by destruct (m w). Qed.

Lemma removal_order_removal_events arr idxs :
  removal_order (removal_events arr idxs) = idxs.
Proof. induction idxs as [|i idxs IH]; [done|]. simpl. by rewrite IH. Qed.

Lemma splice_order_removal_events arr idxs :
  splice_order arr (removal_events arr idxs) = idxs.
Proof.
  induction idxs as [|i idxs IH]; [done|]. simpl.
  rewrite bool_decide_true by done. by rewrite IH.
Qed.

Lemma mark_loop_run self H items :
  ∀ i acc w, ∃ es,
    mark_loop self H items i acc w
    = Ok (acc ++ marked_from (entry_hidden H) items i) (add_events es w)
    ∧ removal_order es = [] ∧ (∀ arr, splice_order arr es = []).
Proof.
  induction items as [|e items IH]; intros i acc w; simpl.
  - exists []. by rewrite add_events_nil, app_nil_r.
  - destruct e as [[[a|]]|]; unfold entry_hidden; simpl.
    + rewrite (bind_ok _ _ _ _ _ (get_id_run _ _)).
      destruct (includes H (app_id a)).
      * rewrite (bind_ok _ _ _ _ _ (log_run _ _ _)).
        destruct (IH (S i) (acc ++ [i])
                    (add_events (log_events self (LogWillRemove i (app_id a)))
                       (add_events [EvGetId a] w))) as (es & -> & Hr & Hs).
        rewrite !add_events_add_events, <-app_assoc.
        eexists; split; [done|]. split.
        -- by rewrite !removal_order_app, removal_order_log, Hr.
        -- intros arr. by rewrite !splice_order_app, splice_order_log, Hs.
      * destruct (IH (S i) acc (add_events [EvGetId a] w)) as (es & -> & Hr & Hs).
        rewrite !add_events_add_events.
        eexists; split; [done|]. split.
        -- by rewrite removal_order_app, Hr.
        -- intros arr. by rewrite splice_order_app, Hs.
    + apply IH.
    + apply IH.
Qed.

Lemma remove_loop_run reversed :
  ∀ h wh pi arr v t c,
    h !! arr = Some c →
    remove_loop reversed
      {| icon_heap := h; win_heap := wh; popup_items := pi;
         popup_switcherList :=
           Some {| icons := Some arr; removeItem := true; sl_items := v |};
         trace := t |}
    = Ok tt
      {| icon_heap := <[arr := delete_each reversed c]> h; win_heap := wh;
         popup_items := pi;
         popup_switcherList :=
           Some {| icons := Some arr; removeItem := true;
                   sl_items := delete_each reversed v |};
         trace := t ++ removal_events arr reversed |}.
Proof.
  induction reversed as [|idx rest IH]; intros h wh pi arr v t c Hc.
  - simpl. unfold ret. by rewrite insert_id, app_nil_r.
  - cbn [remove_loop]. unfold bind at 1. unfold get_world at 1.
    cbn [popup_switcherList removeItem].
    unfold bind at 1. unfold bind at 1. unfold splice_icons at 1.
    cbn [icons]. unfold bind at 1. unfold get_world at 1.
    cbn [icon_heap]. rewrite Hc.
    unfold bind at 1. unfold emit at 1.
    unfold call_removeItem, bind, emit, add_event, set_icon_heap,
      set_popup_switcherList. cbn -[remove_loop].
    fold (bind (A:=unit) (B:=unit)).
    erewrite (IH (<[arr:=delete idx c]> h)); [|by rewrite lookup_insert_eq].
    rewrite insert_insert_eq. simpl. by rewrite <-!app_assoc.
Qed.

(** The override on a switcher of the shape the host builds: [this._items]
    and [this._switcherList.icons] are the same non-degenerate array and the
    list has its [removeItem]. *)
Lemma AppSwitcherPopup_init_run self originalMethod w h wh arr v t items :
  (log self LogInitCalled ;; originalMethod) w
  = Ok tt {| icon_heap := h; win_heap := wh; popup_items := Some arr;
             popup_switcherList :=
               Some {| icons := Some arr; removeItem := true; sl_items := v |};
             trace := t |} →
  h !! arr = Some items →
  let marks := marked_from (entry_hidden (hidden_set self)) items 0 in
  ∃ es,
    AppSwitcherPopup_init self originalMethod w
    = Ok tt {| icon_heap :=
                 <[arr := filter (λ e, ¬ entry_hidden (hidden_set self) e) items]> h;
               win_heap := wh; popup_items := Some arr;
               popup_switcherList :=
                 Some {| icons := Some arr; removeItem := true;
                         sl_items := delete_each (reverse marks) v |};
               trace := t ++ es |}
    ∧ removal_order es = reverse marks
    ∧ splice_order arr es = reverse marks.
Proof.
  intros Horig Hitems marks. subst marks. unfold AppSwitcherPopup_init.
  rewrite <-bind_assoc. rewrite (bind_ok _ _ _ _ _ Horig).
  unfold bind at 1. unfold get_world at 1. cbn [popup_items icon_heap].
  rewrite Hitems. destruct (0 <? length items) eqn:Elen.
  2: { destruct items; [|done]. exists []. cbn. unfold ret.
       by rewrite insert_id, app_nil_r. }
  rewrite (bind_ok _ _ _ _ _ (getHiddenApps_run _ _)).
  rewrite (bind_ok _ _ _ _ _ (log_run _ _ _)).
  match goal with
  | |- ∃ _, bind (mark_loop ?s ?H ?it ?i ?acc) _ ?w0 = _ ∧ _ =>
      destruct (mark_loop_run s H it i acc w0) as (es1 & Hmark & Hr1 & Hs1);
      rewrite app_nil_l in Hmark; rewrite (bind_ok _ _ _ _ _ Hmark); clear Hmark
  end.
  rewrite !add_events_add_events. unfold add_events at 1. cbn [icon_heap win_heap
    popup_items popup_switcherList trace].
  erewrite (bind_ok _ _ _ _ _ (remove_loop_run _ _ _ _ _ _ _ _ Hitems)).
  unfold bind at 1. unfold update_items_reference at 1.
  unfold bind at 1. unfold get_world at 1. cbn [popup_switcherList].
  unfold set_popup_items. cbn [icon_heap win_heap popup_items popup_switcherList
    trace icons].
  rewrite delete_each_marked.
  unfold log_filtered. destruct (ext_flavour self) eqn:Efl.
  - unfold bind at 1. unfold get_world at 1. cbn [popup_items icon_heap].
    rewrite log_run. unfold add_events. cbn [icon_heap win_heap popup_items
      popup_switcherList trace]. rewrite <-!app_assoc.
    eexists; split; [reflexivity|].
    rewrite !removal_order_app, !splice_order_app, removal_order_settings,
      splice_order_settings, !removal_order_log, !splice_order_log, Hr1, Hs1,
      removal_order_removal_events, splice_order_removal_events.
    by rewrite ?app_nil_r.
  - unfold ret. rewrite <-!app_assoc.
    eexists; split; [reflexivity|].
    rewrite !removal_order_app, !splice_order_app, removal_order_settings,
      splice_order_settings, !removal_order_log, !splice_order_log, Hr1, Hs1,
      removal_order_removal_events, splice_order_removal_events.
    by rewrite ?app_nil_r.
Qed.

(** ** The window-list overrides *)

Lemma filter_idemp {A} (P : A → Prop) `{!∀ x, Decision (P x)} (l : list A) :
  filter P (filter P l) = filter P l.
Proof.
  induction l as [|x l IH]; [done|].
  destruct (decide (P x)).
  - rewrite !filter_cons_True by done. by rewrite IH.
  - by rewrite filter_cons_False.
Qed.

Lemma filterM_run self tracker ws :
  ∀ w, ∃ es,
    filterM (λ window,
               hide <- _shouldHideWindow self tracker window ;;
               ret (negb hide)) ws w
    = Ok (filter (λ x, ¬ window_hidden (hidden_set self) tracker x) ws)
         (add_events es w).
Proof.
  induction ws as [|x ws IH]; intros w.
  - exists []. by rewrite add_events_nil.
  - cbn [filterM]. rewrite bind_assoc.
    destruct (shouldHideWindow_run self tracker x w) as (es1 & Hx & _ & _).
    rewrite (bind_ok _ _ _ _ _ Hx). unfold bind at 1. unfold ret at 1.
    destruct (IH (add_events es1 w)) as (es2 & Hws).
    rewrite (bind_ok _ _ _ _ _ Hws). unfold ret.
    rewrite add_events_add_events. exists (es1 ++ es2). f_equal.
    destruct (window_hidden (hidden_set self) tracker x) eqn:E; simpl.
    + rewrite filter_cons_False; [done|]. rewrite E. intros Hn. by apply Hn.
    + rewrite filter_cons_True; [done|]. rewrite E. intros Hn. exact Hn.
Qed.

Lemma filtered_window_list_run k self tracker originalMethod w windows w1 ws :
  originalMethod (add_events (log_events self (LogCalled k)) w) = Ok windows w1 →
  win_heap w1 !! windows = Some ws →
  ∃ filteredWindows w2,
    filtered_window_list k self tracker originalMethod w = Ok filteredWindows w2
    ∧ win_heap w1 !! filteredWindows = None
    ∧ win_heap w2
      = <[filteredWindows :=
            filter (λ x, ¬ window_hidden (hidden_set self) tracker x) ws]>
          (win_heap w1).
Proof.
  intros Horig Hws. unfold filtered_window_list.
  rewrite (bind_ok _ _ _ _ _ (log_run _ _ _)).
  rewrite (bind_ok _ _ _ _ _ Horig).
  unfold bind at 1. unfold get_world at 1. rewrite Hws.
  destruct (filterM_run self tracker ws w1) as (es & Hf).
  rewrite (bind_ok _ _ _ _ _ Hf).
  unfold bind at 1. unfold alloc_windows at 1.
  rewrite (bind_ok _ _ _ _ _ (log_run _ _ _)). unfold ret.
  eexists _, _. split; [reflexivity|]. split; [|done].
  apply not_elem_of_dom. apply is_fresh.
Qed.

Lemma window_list_overrides_cases k override :
  (k, override) ∈ window_list_overrides → override = filtered_window_list k.
Proof.
  unfold window_list_overrides. rewrite !elem_of_cons.
  intros [?|[?|[?|?%elem_of_nil]]]; by simplify_eq.
Qed.

(** ** The mutations of the preferences panel *)

Lemma filter_ne_absent (appId : string) (l : list string) :
  appId ∉ l → filter (λ id, id ≠ appId) l = l.
Proof.
  induction l as [|y l IH]; [done|].
  rewrite not_elem_of_cons. intros [Hne Hl].
  rewrite filter_cons_True by done. by rewrite IH.
Qed.

Lemma filter_ne_not_elem (appId : string) (l : list string) :
  appId ∉ filter (λ id, id ≠ appId) l.
Proof. rewrite list_elem_of_filter. by intros [? _]. Qed.

Lemma stored_onAppToggled appId isActive st :
  Prefs.stored (Prefs._onAppToggled appId isActive st)
  = if isActive then
      if includes (Prefs.stored st) appId then Prefs.stored st
      else Prefs.stored st ++ [appId]
    else filter (λ id, id ≠ appId) (Prefs.stored st).
Proof.
  unfold Prefs._onAppToggled. simpl.
  destruct isActive, (includes (Prefs.stored st) appId) eqn:E; simpl; try done.
  symmetry. apply filter_ne_absent. by apply includes_false.
Qed.

Lemma stored_set_active appId b st :
  Prefs.stored (Prefs.set_active appId b st) = Prefs.stored st
  ∨ Prefs.stored (Prefs.set_active appId b st)
    = Prefs.stored (Prefs._onAppToggled appId b st).
Proof.
  unfold Prefs.set_active. destruct (Prefs.checkboxes st !! appId); [|by left].
  case_bool_decide; [by left|]. right. by rewrite !stored_onAppToggled.
Qed.

Lemma stored_removeHiddenApp appId st :
  Prefs.stored (Prefs._removeHiddenApp appId st)
  = filter (λ id, id ≠ appId) (Prefs.stored st).
Proof.
  unfold Prefs._removeHiddenApp.
  destruct (Prefs.checkboxes (Prefs.set_strv _ st) !! appId); [|done].
  destruct (stored_set_active appId false
              (Prefs.set_strv (filter (λ id, id ≠ appId) (Prefs.stored st)) st))
    as [->| ->]; [done|].
  rewrite stored_onAppToggled. simpl.
  apply filter_ne_absent, filter_ne_not_elem.
Qed.

Lemma NoDup_onAppToggled appId isActive st :
  NoDup (Prefs.stored st) →
  NoDup (Prefs.stored (Prefs._onAppToggled appId isActive st)).
Proof.
  intros Hnd. rewrite stored_onAppToggled. destruct isActive.
  - destruct (includes (Prefs.stored st) appId) eqn:E; [done|].
    apply includes_false in E. apply NoDup_app. split; [done|]. split.
    + intros x Hx ->%list_elem_of_singleton. done.
    + apply NoDup_singleton.
  - by apply NoDup_filter.
Qed.

(** ** The filter predicate *)

(** C1: for every hidden set [H] and every identifier [c], [_shouldHideApp]
    on an application handle whose identifier is [c] returns true if and only
    if [c] appears in [H]. *)
Theorem shouldHideApp_iff_member (fl : flavour) (H : list string) (c : string) :
  ∃ b, returns (_shouldHideApp (with_hidden fl H) (Some {| app_id := c |})) b
       ∧ (b = true ↔ c ∈ H).
Proof.
  exists (includes H c). split; [|apply includes_true].
  intros w. destruct (shouldHideApp_run (with_hidden fl H) {| app_id := c |} w)
    as (es & Hrun).
  by eexists.
Qed.

(** C4: whatever the hidden set, a window for which the tracker resolves no
    application is never hidden: [_shouldHideWindow] returns false. *)
Theorem shouldHideWindow_unresolved (self : Extension)
    (tracker : Window → option App) (window : Window) :
  tracker window = None →
  returns (_shouldHideWindow self tracker window) false.
Proof.
  intros Hnone w.
  destruct (shouldHideWindow_run self tracker window w) as (es & Hrun & _).
  unfold window_hidden in Hrun. rewrite Hnone in Hrun. by eexists.
Qed.

Lemma shouldHideWindow_unresolved_witness :
  example_tracker 3 = None
  ∧ returns (_shouldHideWindow (hides_calculator GithubCom) example_tracker 3) false.
Proof.
  split; [reflexivity|].
  apply (shouldHideWindow_unresolved (hides_calculator GithubCom) example_tracker 3).
  reflexivity.
Defined.

(** C6: while the settings reference is null, [_getHiddenApps] returns the
    empty sequence without reading anything, and every filtering decision
    hides nothing: both predicates return false, the window filter keeps
    every window and the first loop of the main switcher marks no index. *)
Theorem missing_settings_hide_nothing (self : Extension) :
  _settings self = None →
  (∀ w, _getHiddenApps self w = Ok [] w)
  ∧ (∀ app, returns (_shouldHideApp self app) false)
  ∧ (∀ tracker window, returns (_shouldHideWindow self tracker window) false)
  ∧ (∀ tracker ws,
       returns (filterM (λ window,
                           hide <- _shouldHideWindow self tracker window ;;
                           ret (negb hide)) ws) ws)
  ∧ (∀ items,
       returns (hiddenApps <- _getHiddenApps self ;;
                mark_loop self hiddenApps items 0 []) []).
Proof.
  intros Hnull.
  assert (Hget : ∀ w, _getHiddenApps self w = Ok [] w).
  { intros w. unfold _getHiddenApps. by rewrite Hnull. }
  assert (HH : hidden_set self = []).
  { unfold hidden_set. by rewrite Hnull. }
  assert (Hmarks : ∀ items i, marked_from (entry_hidden []) items i = []).
  { induction items as [|e items IH]; intros i; [done|]. simpl.
    rewrite IH. unfold entry_hidden. by destruct (entry_app e). }
  split; [done|]. split; [|split; [|split]].
  - intros app w. unfold _shouldHideApp. rewrite (bind_ok _ _ _ _ _ (Hget w)).
    by eexists.
  - intros tracker window w. unfold _shouldHideWindow.
    rewrite (bind_ok _ _ _ _ _ (Hget w)). by eexists.
  - intros tracker ws w. destruct (filterM_run self tracker ws w) as (es & ->).
    rewrite HH. eexists. f_equal.
    induction ws as [|x ws IH]; [done|].
    rewrite filter_cons_True; [by rewrite IH|].
    unfold window_hidden. destruct (tracker x); simpl; intros Hn; exact Hn.
  - intros items w. rewrite (bind_ok _ _ _ _ _ (Hget w)).
    destruct (mark_loop_run self [] items 0 [] w) as (es & -> & _).
    rewrite Hmarks. by eexists.
Qed.

Lemma missing_settings_hide_nothing_witness :
  returns (_shouldHideWindow {| ext_flavour := GithubIo; _settings := None |}
             example_tracker 1) false.
Proof.
  apply (missing_settings_hide_nothing
           {| ext_flavour := GithubIo; _settings := None |}).
  reflexivity.
Defined.

(** C7: with the empty hidden set both predicates return false without
    looking at the candidate: the outcome is the same for every application
    handle, window and tracker, and the events of the call contain neither a
    tracker lookup nor a [get_id]. *)
Theorem empty_hidden_set_short_circuits (self : Extension) (w : World) :
  hidden_set self = [] →
  ∃ es,
    Forall (λ e, inspects_candidate e = false) es
    ∧ (∀ app, _shouldHideApp self app w = Ok false (add_events es w))
    ∧ (∀ tracker window,
         _shouldHideWindow self tracker window w = Ok false (add_events es w)).
Proof.
  intros HH. exists (settings_events self). split; [|split].
  - unfold settings_events. destruct (_settings self); repeat constructor.
  - intros app. unfold _shouldHideApp.
    rewrite (bind_ok _ _ _ _ _ (getHiddenApps_run self w)). by rewrite HH.
  - intros tracker window. unfold _shouldHideWindow.
    rewrite (bind_ok _ _ _ _ _ (getHiddenApps_run self w)). by rewrite HH.
Qed.

Lemma empty_hidden_set_short_circuits_witness :
  ∃ es,
    Forall (λ e, inspects_candidate e = false) es
    ∧ (∀ app, _shouldHideApp (with_hidden GithubCom []) app example_switcher
              = Ok false (add_events es example_switcher))
    ∧ (∀ tracker window,
         _shouldHideWindow (with_hidden GithubCom []) tracker window example_switcher
         = Ok false (add_events es example_switcher)).
Proof.
  apply (empty_hidden_set_short_circuits (with_hidden GithubCom []) example_switcher).
  reflexivity.
Defined.

(** ** The window-list overrides *)

(** C2: each of the three overrides, run on the array [windows] that the
    original routine returns, returns a newly allocated array that holds
    exactly the windows for which [_shouldHideWindow] returns false, in
    their original order, and leaves every array that existed before,
    [windows] among them, as it was. *)
Theorem window_list_override_filters k override (self : Extension)
    (tracker : Window → option App) (originalMethod : M loc)
    (w w1 : World) (windows : loc) (ws : list Window) :
  (k, override) ∈ window_list_overrides →
  originalMethod (add_events (log_events self (LogCalled k)) w) = Ok windows w1 →
  win_heap w1 !! windows = Some ws →
  ∃ filteredWindows w2 filtered,
    override self tracker originalMethod w = Ok filteredWindows w2
    ∧ filteredWindows ≠ windows
    ∧ win_heap w1 !! filteredWindows = None
    ∧ win_heap w2 !! filteredWindows = Some filtered
    ∧ (∀ l0 ws0, win_heap w1 !! l0 = Some ws0 → win_heap w2 !! l0 = Some ws0)
    ∧ filtered = filter (λ x, ¬ window_hidden (hidden_set self) tracker x) ws
    ∧ (∀ x, x ∈ filtered
            ↔ x ∈ ws ∧ returns (_shouldHideWindow self tracker x) false)
    ∧ filtered `sublist_of` ws.
Proof.
  intros ->%window_list_overrides_cases Horig Hws.
  destruct (filtered_window_list_run k self tracker originalMethod w windows w1 ws
              Horig Hws) as (l' & w2 & Hrun & Hfresh & Hheap).
  exists l', w2, (filter (λ x, ¬ window_hidden (hidden_set self) tracker x) ws).
  assert (l' ≠ windows) as Hne by (intros ->; congruence).
  split; [done|]. split; [done|]. split; [done|].
  split; [by rewrite Hheap, lookup_insert_eq|].
  split.
  { intros l0 ws0 Hl0. rewrite Hheap, lookup_insert_ne; [done|].
    intros ->; congruence. }
  split; [done|]. split; [|apply sublist_filter].
  intros x. rewrite list_elem_of_filter. split.
  - intros [Hx Hin]. split; [done|]. intros w0.
    destruct (shouldHideWindow_run self tracker x w0) as (es & -> & _).
    destruct (window_hidden _ _ x); [by destruct Hx|by eexists].
  - intros [Hin Hret]. split; [|done].
    destruct (Hret w) as (w' & Hw').
    destruct (shouldHideWindow_run self tracker x w) as (es & Hrun' & _).
    rewrite Hrun' in Hw'. injection Hw' as -> _. intros Hn; exact Hn.
Qed.

Lemma window_list_override_filters_witness :
  ∃ filteredWindows w2,
    WindowCyclerPopup_getWindows (hides_calculator GithubCom) example_tracker
      (ret 7) example_switcher = Ok filteredWindows w2
    ∧ filteredWindows ≠ 7
    ∧ win_heap w2 !! filteredWindows = Some [3; 2]
    ∧ win_heap w2 !! 7 = Some [1; 3; 2].
Proof.
  destruct (window_list_override_filters WindowCyclerPopup
              WindowCyclerPopup_getWindows (hides_calculator GithubCom)
              example_tracker (ret 7) example_switcher
              (add_events [EvLog (LogCalled WindowCyclerPopup)] example_switcher)
              7 [1; 3; 2])
    as (l' & w2 & filtered & Hrun & Hne & _ & Hnew & Hold & -> & _).
  - unfold window_list_overrides. apply list_elem_of_further, list_elem_of_here.
  - reflexivity.
  - reflexivity.
  - exists l', w2. split; [exact Hrun|]. split; [exact Hne|].
    split; [exact Hnew|]. apply Hold. reflexivity.
Defined.

(** C8: filtering is idempotent: when an override is run again on the array
    it has just returned, with the same hidden set, the array it then
    returns has the same contents. *)
Theorem window_list_override_idempotent k override (self : Extension)
    (tracker : Window → option App) (originalMethod : M loc)
    (w w1 : World) (windows : loc) (ws : list Window) :
  (k, override) ∈ window_list_overrides →
  originalMethod (add_events (log_events self (LogCalled k)) w) = Ok windows w1 →
  win_heap w1 !! windows = Some ws →
  ∃ once w2 twice w3 filtered,
    override self tracker originalMethod w = Ok once w2
    ∧ win_heap w2 !! once = Some filtered
    ∧ override self tracker (ret once) w2 = Ok twice w3
    ∧ win_heap w3 !! twice = Some filtered
    ∧ win_heap w3 !! once = Some filtered.
Proof.
  intros ->%window_list_overrides_cases Horig Hws.
  destruct (filtered_window_list_run k self tracker originalMethod w windows w1 ws
              Horig Hws) as (l1 & w2 & Hrun1 & Hfresh1 & Hheap1).
  set (filtered := filter (λ x, ¬ window_hidden (hidden_set self) tracker x) ws)
    in *.
  assert (Hl1 : win_heap w2 !! l1 = Some filtered)
    by by rewrite Hheap1, lookup_insert_eq.
  destruct (filtered_window_list_run k self tracker (ret l1) w2 l1
              (add_events (log_events self (LogCalled k)) w2) filtered
              eq_refl Hl1) as (l2 & w3 & Hrun2 & Hfresh2 & Hheap2).
  exists l1, w2, l2, w3, filtered.
  split; [done|]. split; [done|]. split; [done|].
  cbn [add_events win_heap] in Hheap2, Hfresh2.
  rewrite Hheap2. split.
  - rewrite lookup_insert_eq. unfold filtered. by rewrite filter_idemp.
  - rewrite lookup_insert_ne; [done|]. intros ->. congruence.
Qed.

Lemma window_list_override_idempotent_witness :
  ∃ once w2 twice w3,
    GroupCyclerPopup_getWindows (hides_calculator GithubIo) example_tracker
      (ret 7) example_switcher = Ok once w2
    ∧ GroupCyclerPopup_getWindows (hides_calculator GithubIo) example_tracker
        (ret once) w2 = Ok twice w3
    ∧ win_heap w3 !! twice = win_heap w2 !! once.
Proof.
  destruct (window_list_override_idempotent GroupCyclerPopup
              GroupCyclerPopup_getWindows (hides_calculator GithubIo)
              example_tracker (ret 7) example_switcher
              (add_events [] example_switcher) 7 [1; 3; 2])
    as (l1 & w2 & l2 & w3 & filtered & Hrun1 & Hl1 & Hrun2 & Hl2 & _).
  - unfold window_list_overrides.
    apply list_elem_of_further, list_elem_of_further, list_elem_of_here.
  - reflexivity.
  - reflexivity.
  - exists l1, w2, l2, w3. split; [exact Hrun1|]. split; [exact Hrun2|].
    rewrite Hl1. exact Hl2.
Defined.

(** ** The main switcher *)

Lemma delete_zip {A B} (idx : nat) (l : list A) (k : list B) :
  delete idx (zip l k) = zip (delete idx l) (delete idx k).
Proof.
  revert idx k. induction l as [|x l IH]; intros idx k; [by destruct idx|].
  destruct k as [|y k].
  - destruct idx; simpl; [by destruct l|]. by destruct (delete idx l).
  - destruct idx; [done|]. simpl. by rewrite IH.
Qed.

Lemma delete_each_zip {A B} (idxs : list nat) (l : list A) (k : list B) :
  delete_each idxs (zip l k) = zip (delete_each idxs l) (delete_each idxs k).
Proof.
  revert l k. induction idxs as [|i idxs IH]; intros l k; [done|].
  simpl. rewrite delete_zip. apply IH.
Qed.

Lemma marked_from_zip {A B} (P : A → bool) (l : list A) (k : list B) i :
  length l = length k →
  marked_from (λ p, P p.1) (zip l k) i = marked_from P l i.
Proof.
  revert k i. induction l as [|x l IH]; intros [|y k] i Hlen; try done.
  simpl in *. by rewrite IH by lia.
Qed.

Lemma length_delete_each {A B} (idxs : list nat) (l : list A) (k : list B) :
  length l = length k →
  length (delete_each idxs l) = length (delete_each idxs k).
Proof.
  revert l k. induction idxs as [|i idxs IH]; intros l k Hlen; [done|].
  simpl. apply IH. clear IH. revert i k Hlen.
  induction l as [|x l IHl]; intros i [|y k] Hlen; try done.
  destruct i; simpl in *; [lia|]. f_equal. apply IHl. lia.
Qed.

Lemma entry_hidden_no_app H e : entry_app e = None → entry_hidden H e = false.
Proof. unfold entry_hidden. by intros ->. Qed.

Lemma remove_loop_no_switcherList reversed w :
  popup_switcherList w = None → remove_loop reversed w = Ok tt w.
Proof.
  intros Hnone. induction reversed as [|idx rest IH]; [done|].
  cbn [remove_loop]. unfold bind at 1. unfold get_world at 1.
  rewrite Hnone. unfold bind at 1. unfold ret at 1. exact IH.
Qed.

(** Without a non-empty array in [this._items] the override does nothing
    after the original routine. *)
Lemma AppSwitcherPopup_init_skips self originalMethod w w1 :
  originalMethod (add_events (log_events self LogInitCalled) w) = Ok tt w1 →
  (popup_items w1 = None
   ∨ ∃ arr, popup_items w1 = Some arr
            ∧ (icon_heap w1 !! arr = None ∨ icon_heap w1 !! arr = Some [])) →
  AppSwitcherPopup_init self originalMethod w = Ok tt w1.
Proof.
  intros Horig Hshape. unfold AppSwitcherPopup_init.
  rewrite (bind_ok _ _ _ _ _ (log_run _ _ _)).
  rewrite (bind_ok _ _ _ _ _ Horig).
  unfold bind, get_world.
  destruct Hshape as [->|(arr & -> & [->| ->])]; done.
Qed.

(** With items to look at and no switcher list, the override ends in the
    [TypeError] of [this._switcherList.icons]. *)
Lemma AppSwitcherPopup_init_throws self originalMethod w w1 arr items :
  originalMethod (add_events (log_events self LogInitCalled) w) = Ok tt w1 →
  popup_items w1 = Some arr →
  icon_heap w1 !! arr = Some items →
  items ≠ [] →
  popup_switcherList w1 = None →
  ∃ w2, AppSwitcherPopup_init self originalMethod w
        = Throw (TypeError "this._switcherList is undefined") w2.
Proof.
  intros Horig Hitems Harr Hne Hnone. unfold AppSwitcherPopup_init.
  rewrite (bind_ok _ _ _ _ _ (log_run _ _ _)).
  rewrite (bind_ok _ _ _ _ _ Horig).
  unfold bind at 1. unfold get_world at 1. rewrite Hitems, Harr.
  destruct items as [|e items]; [done|]. cbn [length Nat.ltb Nat.leb].
  rewrite (bind_ok _ _ _ _ _ (getHiddenApps_run _ _)).
  rewrite (bind_ok _ _ _ _ _ (log_run _ _ _)).
  match goal with
  | |- ∃ _, bind (mark_loop ?s ?H ?it ?i ?acc) _ ?w0 = _ =>
      destruct (mark_loop_run s H it i acc w0) as (es1 & Hmark & _);
      rewrite (bind_ok _ _ _ _ _ Hmark); clear Hmark
  end.
  rewrite !add_events_add_events.
  rewrite (bind_ok _ _ _ _ _ (remove_loop_no_switcherList _ (add_events _ w1) Hnone)).
  unfold bind at 1. unfold update_items_reference.
  unfold bind at 1. unfold get_world at 1.
  cbn [add_events popup_switcherList]. rewrite Hnone. by eexists.
Qed.

Lemma remove_loop_no_removeItem reversed w s :
  popup_switcherList w = Some s → removeItem s = false →
  remove_loop reversed w = Ok tt w.
Proof.
  intros Hs Hrm. induction reversed as [|idx rest IH]; [done|].
  cbn [remove_loop]. unfold bind at 1. unfold get_world at 1.
  rewrite Hs, Hrm. unfold bind at 1. unfold ret at 1. exact IH.
Qed.

(** A switcher list that has no [removeItem] but still shares its icons
    array with [this._items]: nothing is taken out, and only the trace
    grows. *)
Lemma AppSwitcherPopup_init_without_removeItem self originalMethod w w1 arr s items :
  originalMethod (add_events (log_events self LogInitCalled) w) = Ok tt w1 →
  popup_items w1 = Some arr →
  popup_switcherList w1 = Some s →
  icons s = Some arr →
  removeItem s = false →
  icon_heap w1 !! arr = Some items →
  ∃ es, AppSwitcherPopup_init self originalMethod w = Ok tt (add_events es w1).
Proof.
  intros Horig Hitems Hs Hicons Hrm Harr. unfold AppSwitcherPopup_init.
  rewrite (bind_ok _ _ _ _ _ (log_run _ _ _)).
  rewrite (bind_ok _ _ _ _ _ Horig).
  unfold bind at 1. unfold get_world at 1. rewrite Hitems, Harr.
  destruct (0 <? length items).
  2: { exists []. by rewrite add_events_nil. }
  rewrite (bind_ok _ _ _ _ _ (getHiddenApps_run _ _)).
  rewrite (bind_ok _ _ _ _ _ (log_run _ _ _)).
  match goal with
  | |- ∃ _, bind (mark_loop ?s ?H ?it ?i ?acc) _ ?w0 = _ =>
      destruct (mark_loop_run s H it i acc w0) as (es1 & Hmark & _);
      rewrite (bind_ok _ _ _ _ _ Hmark); clear Hmark
  end.
  rewrite !add_events_add_events.
  rewrite (bind_ok _ _ _ _ _
             (remove_loop_no_removeItem _ (add_events _ w1) s Hs Hrm)).
  unfold bind at 1. unfold update_items_reference.
  unfold bind at 1. unfold get_world at 1.
  cbn [add_events popup_switcherList]. rewrite Hs, Hicons.
  unfold set_popup_items. cbn [icon_heap win_heap popup_items popup_switcherList
    trace]. rewrite <-Hitems.
  unfold log_filtered. destruct (ext_flavour self).
  - unfold bind at 1. unfold get_world at 1. cbn [popup_items]. rewrite Hitems.
    rewrite log_run. unfold add_events. cbn [icon_heap win_heap popup_items
      popup_switcherList trace]. rewrite <-app_assoc, <-Hitems. by eexists.
  - unfold ret. by eexists.
Qed.

(** C3: on a switcher as the original initialization builds it, the override
    takes every entry whose application identifier is in the hidden set out
    of the icons array and, position for position, out of the visual list;
    the calls to [splice] and to [removeItem] go through the marked indices
    from the highest to the lowest; what remains is in its original order. *)
Theorem main_switcher_removes_hidden (self : Extension) (originalMethod : M unit)
    (w w1 : World) (arr : loc) (s : SwitcherList) (items : list icon_entry) :
  originalMethod (add_events (log_events self LogInitCalled) w) = Ok tt w1 →
  popup_items w1 = Some arr →
  popup_switcherList w1 = Some s →
  icons s = Some arr →
  removeItem s = true →
  icon_heap w1 !! arr = Some items →
  length (sl_items s) = length items →
  let H := hidden_set self in
  ∃ w2 s2 es remaining,
    AppSwitcherPopup_init self originalMethod w = Ok tt w2
    ∧ popup_items w2 = Some arr
    ∧ popup_switcherList w2 = Some s2
    ∧ icons s2 = Some arr
    ∧ icon_heap w2 !! arr = Some remaining
    ∧ remaining = filter (λ e, ¬ entry_hidden H e) items
    ∧ Forall (λ e, ∀ a, entry_app e = Some a → app_id a ∉ H) remaining
    ∧ remaining `sublist_of` items
    ∧ sl_items s2
      = (filter (λ p, ¬ entry_hidden H p.1) (zip items (sl_items s))).*2
    ∧ trace w2 = trace w1 ++ es
    ∧ removal_order es = reverse (marked_from (entry_hidden H) items 0)
    ∧ splice_order arr es = removal_order es
    ∧ StronglySorted gt (removal_order es).
Proof.
  intros Horig Hitems Hsl Hicons Hrm Harr Hlen H. subst H.
  destruct w1 as [h wh pi psl t], s as [ic rm v]. simpl in *. subst.
  assert (Hpre : (log self LogInitCalled ;; originalMethod) w = Ok tt
            {| icon_heap := h; win_heap := wh; popup_items := Some arr;
               popup_switcherList :=
                 Some {| icons := Some arr; removeItem := true; sl_items := v |};
               trace := t |}).
  { by rewrite (bind_ok _ _ _ _ _ (log_run _ _ _)). }
  destruct (AppSwitcherPopup_init_run self originalMethod w h wh arr v t items
              Hpre Harr) as (es & Hrun & Hrem & Hspl).
  eexists _, _, es, _. split; [exact Hrun|]. cbn.
  split; [done|]. split; [done|]. split; [done|].
  split; [by rewrite lookup_insert_eq|]. split; [done|]. split.
  { apply Forall_forall. intros e [Hvis _]%list_elem_of_filter a Ha.
    unfold entry_hidden in Hvis. rewrite Ha in Hvis.
    apply includes_false.
    destruct (includes (hidden_set self) (app_id a)); [|done].
    by destruct Hvis. }
  split; [apply sublist_filter|]. split.
  { rewrite <-(delete_each_marked (λ p, entry_hidden (hidden_set self) p.1)).
    rewrite marked_from_zip by done. rewrite delete_each_zip.
    cbn [sl_items]. rewrite snd_zip; [done|].
    by rewrite (length_delete_each _ v items). }
  split; [done|]. split; [done|]. split; [congruence|].
  rewrite Hrem. apply StronglySorted_reverse_lt, marked_from_sorted.
Qed.

Lemma main_switcher_removes_hidden_witness :
  ∃ w2,
    AppSwitcherPopup_init (hides_calculator GithubCom) (ret tt) example_switcher
    = Ok tt w2
    ∧ icon_heap w2 !! 0 = Some [Some {| app := None |}; icon_of files]
    ∧ sl_items <$> popup_switcherList w2 = Some [11; 12].
Proof.
  destruct (main_switcher_removes_hidden (hides_calculator GithubCom) (ret tt)
              example_switcher
              (add_events [EvLog LogInitCalled] example_switcher) 0
              {| icons := Some 0; removeItem := true; sl_items := [10; 11; 12] |}
              [icon_of calculator; Some {| app := None |}; icon_of files])
    as (w2 & s2 & es & remaining & Hrun & _ & Hs2 & _ & Harr & -> & _ & _
        & Hvisual & _); try reflexivity.
  exists w2. split; [exact Hrun|]. split; [exact Harr|].
  rewrite Hs2. simpl. f_equal. exact Hvisual.
Defined.

(** C10: whatever the hidden set, [_shouldHideApp] returns false for an
    absent application handle; and on a switcher as the original
    initialization builds it, the override marks no position whose icon or
    [icon.app] is absent, so that all such entries are still in the icons
    array afterwards, in their order. *)
Theorem absent_app_never_hidden :
  (∀ self, returns (_shouldHideApp self None) false)
  ∧ (∀ self originalMethod w w1 arr s items,
       originalMethod (add_events (log_events self LogInitCalled) w) = Ok tt w1 →
       popup_items w1 = Some arr →
       popup_switcherList w1 = Some s →
       icons s = Some arr →
       removeItem s = true →
       icon_heap w1 !! arr = Some items →
       ∃ w2 es remaining,
         AppSwitcherPopup_init self originalMethod w = Ok tt w2
         ∧ trace w2 = trace w1 ++ es
         ∧ (∀ i e, items !! i = Some e → entry_app e = None →
                   (i ∉ splice_order arr es) ∧ (i ∉ removal_order es))
         ∧ icon_heap w2 !! arr = Some remaining
         ∧ filter (λ e, entry_app e = None) remaining
           = filter (λ e, entry_app e = None) items).
Proof.
  split.
  - intros self w. unfold _shouldHideApp.
    rewrite (bind_ok _ _ _ _ _ (getHiddenApps_run self w)).
    destruct (length (hidden_set self) =? 0); by eexists.
  - intros self originalMethod w w1 arr s items Horig Hitems Hsl Hicons Hrm Harr.
    destruct w1 as [h wh pi psl t], s as [ic rm v]. simpl in *. subst.
    assert (Hpre : (log self LogInitCalled ;; originalMethod) w = Ok tt
              {| icon_heap := h; win_heap := wh; popup_items := Some arr;
                 popup_switcherList :=
                   Some {| icons := Some arr; removeItem := true; sl_items := v |};
                 trace := t |}).
    { by rewrite (bind_ok _ _ _ _ _ (log_run _ _ _)). }
    destruct (AppSwitcherPopup_init_run self originalMethod w h wh arr v t items
                Hpre Harr) as (es & Hrun & Hrem & Hspl).
    eexists _, es, _. split; [exact Hrun|]. cbn.
    split; [done|]. split; [|split; [by rewrite lookup_insert_eq|]].
    + intros i e Hi He. rewrite Hspl, Hrem, elem_of_reverse.
      assert (i ∉ marked_from (entry_hidden (hidden_set self)) items 0); [|done].
      rewrite marked_from_lookup, Nat.sub_0_r. intros (e' & He' & _ & Hhid).
      simplify_eq. by rewrite entry_hidden_no_app in Hhid.
    + rewrite list_filter_filter. apply list_filter_iff. intros e. split.
      * by intros [? _].
      * intros He. split; [done|]. rewrite entry_hidden_no_app by done.
        intros Hn; exact Hn.
Qed.

Lemma absent_app_never_hidden_witness :
  ∃ w2,
    AppSwitcherPopup_init (hides_calculator GithubIo) (ret tt) example_switcher
    = Ok tt w2
    ∧ ∃ remaining, icon_heap w2 !! 0 = Some remaining
                   ∧ filter (λ e, entry_app e = None) remaining
                     = [Some {| app := None |}].
Proof.
  destruct (proj2 absent_app_never_hidden (hides_calculator GithubIo) (ret tt)
              example_switcher example_switcher 0
              {| icons := Some 0; removeItem := true; sl_items := [10; 11; 12] |}
              [icon_of calculator; Some {| app := None |}; icon_of files])
    as (w2 & es & remaining & Hrun & _ & _ & Harr & Hkeep); try reflexivity.
  exists w2. split; [exact Hrun|]. exists remaining. split; [exact Harr|].
  exact Hkeep.
Defined.

(** C5: the fail-open behaviour on a change of shape is what the guards of
    the override aim at, and the code misses it. At
    [example_switcher_without_list], where [this._items] is a non-empty array
    and [this._switcherList] is absent, the override does not return: the
    assignment [this._items = this._switcherList.icons] raises a
    [TypeError], in both flavours. *)
Theorem main_switcher_without_list_throws (fl : flavour) :
  ∃ w2,
    AppSwitcherPopup_init (hides_calculator fl) (ret tt)
      example_switcher_without_list
    = Throw (TypeError "this._switcherList is undefined") w2.
Proof.
  apply (AppSwitcherPopup_init_throws (hides_calculator fl) (ret tt)
           example_switcher_without_list
           (add_events (log_events (hides_calculator fl) LogInitCalled)
              example_switcher_without_list)
           0 [icon_of files]); done.
Qed.

(** ** The preferences panel *)

(** C9: the mutations of the preferences panel keep the stored sequence free
    of duplicates: [_onAppToggled] (also when it is reached through a click
    on a check button) and [_removeHiddenApp]; toggling on appends the
    identifier when it is absent and changes nothing when it is present, and
    removing an identifier that is not stored changes nothing. *)
Theorem prefs_mutations_keep_NoDup (st : Prefs.State) (appId : string) :
  NoDup (Prefs.stored st) →
  (∀ isActive, NoDup (Prefs.stored (Prefs._onAppToggled appId isActive st)))
  ∧ NoDup (Prefs.stored (Prefs.click_checkbox appId st))
  ∧ NoDup (Prefs.stored (Prefs._removeHiddenApp appId st))
  ∧ (appId ∉ Prefs.stored st →
     Prefs.stored (Prefs._onAppToggled appId true st) = Prefs.stored st ++ [appId])
  ∧ (appId ∈ Prefs.stored st →
     Prefs.stored (Prefs._onAppToggled appId true st) = Prefs.stored st)
  ∧ (appId ∉ Prefs.stored st →
     Prefs.stored (Prefs._removeHiddenApp appId st) = Prefs.stored st).
Proof.
  intros Hnd. split; [|split; [|split; [|split; [|split]]]].
  - intros isActive. by apply NoDup_onAppToggled.
  - unfold Prefs.click_checkbox.
    destruct (Prefs.checkboxes st !! appId) as [cur|]; [|done].
    destruct (stored_set_active appId (negb cur) st) as [->| ->]; [done|].
    by apply NoDup_onAppToggled.
  - rewrite stored_removeHiddenApp. by apply NoDup_filter.
  - intros Habs%includes_false. by rewrite stored_onAppToggled, Habs.
  - intros Hin%includes_true. by rewrite stored_onAppToggled, Hin.
  - intros Habs. rewrite stored_removeHiddenApp. by apply filter_ne_absent.
Qed.

Lemma prefs_mutations_keep_NoDup_witness :
  NoDup (Prefs.stored
           (Prefs._removeHiddenApp "org.gnome.Nautilus.desktop"
              {| Prefs.stored := ["org.gnome.Calculator.desktop";
                                  "org.gnome.Nautilus.desktop"];
                 Prefs.checkboxes := {[ "org.gnome.Nautilus.desktop" := true ]} |})).
Proof.
  apply (prefs_mutations_keep_NoDup
           {| Prefs.stored := ["org.gnome.Calculator.desktop";
                               "org.gnome.Nautilus.desktop"];
              Prefs.checkboxes := {[ "org.gnome.Nautilus.desktop" := true ]} |}
           "org.gnome.Nautilus.desktop").
  simpl. apply NoDup_cons. split.
  - rewrite list_elem_of_singleton. discriminate.
  - apply NoDup_singleton.
Defined.

(** * Further properties *)

(** ** The life cycle of the extension object *)

Lemma enable_run getSettings id this :
  ∃ calls,
    Lifecycle.enable getSettings id this
    = Some ({| Lifecycle.flavour_of := Lifecycle.flavour_of this;
               Lifecycle._settings := Some getSettings;
               Lifecycle._injectionManager := Some Lifecycle.overridden_targets;
               Lifecycle._settingsChangedId :=
                 match Lifecycle.flavour_of this with
                 | GithubCom => Some id
                 | GithubIo => Lifecycle._settingsChangedId this
                 end |}, calls)
    ∧ Lifecycle.registered calls = Lifecycle.overridden_targets
    ∧ (Lifecycle.HConnectChanged id ∈ calls
       ↔ Lifecycle.flavour_of this = GithubCom)
    ∧ filter (λ c, Lifecycle.releases c = true) calls = [].
Proof.
  destruct this as [[] s m i]; eexists; (split; [reflexivity|]);
    (split; [reflexivity|]); cbn [Lifecycle.flavour_of]; (split; [|reflexivity]).
  - split; [done|]. intros _. cbn.
    repeat first [apply list_elem_of_here | apply list_elem_of_further].
  - split; [|done]. cbn. intros Hin.
    repeat (apply elem_of_cons in Hin as [Hin|Hin]; [discriminate|]).
    by apply elem_of_nil in Hin.
Qed.

Lemma disable_fields this :
  Lifecycle._settings (Lifecycle.disable this).1 = None
  ∧ Lifecycle._injectionManager (Lifecycle.disable this).1 = None
  ∧ Lifecycle.flavour_of (Lifecycle.disable this).1 = Lifecycle.flavour_of this.
Proof.
  destruct this as [[] [s|] [m|] [[|n]|]]; done.
Qed.

Lemma disable_released this :
  Lifecycle._settings this = None →
  Lifecycle._injectionManager this = None →
  Lifecycle.disable this
  = (this, match Lifecycle.flavour_of this with
           | GithubCom => [Lifecycle.HLog Lifecycle.LogDisabling;
                           Lifecycle.HLog Lifecycle.LogDisabled]
           | GithubIo => []
           end).
Proof.
  destruct this as [[] s m i]; simpl; intros -> ->; done.
Qed.

Lemma empty_hidden_set_returns_false self :
  hidden_set self = [] →
  (∀ app, returns (_shouldHideApp self app) false)
  ∧ (∀ tracker window, returns (_shouldHideWindow self tracker window) false).
Proof.
  intros HH. split.
  - intros app w. unfold _shouldHideApp.
    rewrite (bind_ok _ _ _ _ _ (getHiddenApps_run self w)), HH. by eexists.
  - intros tracker window w. unfold _shouldHideWindow.
    rewrite (bind_ok _ _ _ _ _ (getHiddenApps_run self w)), HH. by eexists.
Qed.

(** X1: what [enable] acquires, [disable] releases. [enable] always
    completes and registers the four overrides, each once; the [disable]
    that follows clears exactly those, in the [.com] flavour after
    disconnecting the handler [enable] connected and before disposing of the
    settings object, and leaves no settings object and no manager behind.
    The handler id must not be 0, which [disable] takes for "no handler". *)
Theorem enable_then_disable_releases (getSettings : Settings) (id : nat)
    (this : Lifecycle.Instance) :
  id ≠ 0 →
  ∃ enabled calls_on disabled calls_off,
    Lifecycle.enable getSettings id this = Some (enabled, calls_on)
    ∧ Lifecycle.disable enabled = (disabled, calls_off)
    ∧ Lifecycle.registered calls_on = Lifecycle.overridden_targets
    ∧ NoDup (Lifecycle.registered calls_on)
    ∧ filter (λ c, Lifecycle.releases c = true) calls_on = []
    ∧ filter (λ c, Lifecycle.releases c = true) calls_off
      = match Lifecycle.flavour_of this with
        | GithubCom => [Lifecycle.HDisconnect id;
                        Lifecycle.HClear (Lifecycle.registered calls_on);
                        Lifecycle.HRunDispose]
        | GithubIo => [Lifecycle.HClear (Lifecycle.registered calls_on)]
        end
    ∧ Lifecycle._settings disabled = None
    ∧ Lifecycle._injectionManager disabled = None
    ∧ (Lifecycle.flavour_of this = GithubCom →
       Lifecycle._settingsChangedId disabled = None).
Proof.
  intros Hid.
  destruct (enable_run getSettings id this) as (calls_on & Hen & Hreg & _ & Hrel).
  eexists _, calls_on, _, _. split; [exact Hen|].
  split; [apply surjective_pairing|].
  split; [done|]. split.
  { rewrite Hreg. unfold Lifecycle.overridden_targets.
    repeat (apply NoDup_cons; split;
            [rewrite ?elem_of_cons, elem_of_nil; intros Hin;
             repeat (destruct Hin as [Hin|Hin]; [discriminate|]); done|]).
    apply NoDup_nil_2. }
  split; [done|]. rewrite Hreg.
  destruct id as [|n]; [done|].
  destruct this as [[] s m i]; done.
Qed.

Lemma enable_then_disable_releases_witness :
  ∃ disabled calls_off,
    Lifecycle.disable
      {| Lifecycle.flavour_of := GithubCom;
         Lifecycle._settings := Some {| hidden_apps := [] |};
         Lifecycle._injectionManager := Some Lifecycle.overridden_targets;
         Lifecycle._settingsChangedId := Some 5 |}
    = (disabled, calls_off)
    ∧ filter (λ c, Lifecycle.releases c = true) calls_off
      = [Lifecycle.HDisconnect 5;
         Lifecycle.HClear Lifecycle.overridden_targets;
         Lifecycle.HRunDispose].
Proof.
  destruct (enable_then_disable_releases {| hidden_apps := [] |} 5
              (Lifecycle.constructor GithubCom))
    as (enabled & calls_on & disabled & calls_off & Hen & Hdis & Hreg & _ & _
        & Hrel & _); [discriminate|].
  injection Hen as <- <-. exists disabled, calls_off.
  split; [exact Hdis|exact Hrel].
Defined.

(** X2: [disable] can be called at any time and any number of times:
    whatever the fields hold, it leaves no settings object and no manager,
    and a further [disable] changes nothing and releases nothing. *)
Theorem disable_idempotent (this : Lifecycle.Instance) :
  let disabled := (Lifecycle.disable this).1 in
  Lifecycle._settings disabled = None
  ∧ Lifecycle._injectionManager disabled = None
  ∧ (Lifecycle.disable disabled).1 = disabled
  ∧ filter (λ c, Lifecycle.releases c = true) (Lifecycle.disable disabled).2 = [].
Proof.
  intros disabled.
  destruct (disable_fields this) as (Hs & Hm & _). fold disabled in Hs, Hm.
  split; [done|]. split; [done|].
  rewrite (disable_released disabled Hs Hm). split; [done|].
  by destruct (Lifecycle.flavour_of disabled).
Qed.

(** X3: the wrappers follow the life cycle of the object they close over.
    After [enable] a filtering decision reads the list of the settings
    object [enable] obtained; after [disable] both predicates return false
    and the window filter keeps every window, so that a wrapper called late
    hides nothing. *)
Theorem wrappers_follow_life_cycle (getSettings : Settings) (id : nat)
    (this : Lifecycle.Instance) :
  ∃ enabled calls_on,
    Lifecycle.enable getSettings id this = Some (enabled, calls_on)
    ∧ returns (_getHiddenApps (Lifecycle.as_extension enabled))
        (hidden_apps getSettings)
    ∧ let disabled := Lifecycle.as_extension (Lifecycle.disable enabled).1 in
      returns (_getHiddenApps disabled) []
      ∧ (∀ app, returns (_shouldHideApp disabled app) false)
      ∧ (∀ tracker window, returns (_shouldHideWindow disabled tracker window) false)
      ∧ (∀ tracker ws,
           returns (filterM (λ window,
                               hide <- _shouldHideWindow disabled tracker window ;;
                               ret (negb hide)) ws) ws).
Proof.
  destruct (enable_run getSettings id this) as (calls_on & Hen & _).
  eexists _, calls_on. split; [exact Hen|]. split.
  { intros w. by eexists. }
  intros disabled.
  assert (Hnull : _settings disabled = None).
  { unfold disabled, Lifecycle.as_extension. simpl. apply disable_fields. }
  assert (HH : hidden_set disabled = []).
  { unfold hidden_set. by rewrite Hnull. }
  destruct (empty_hidden_set_returns_false disabled HH) as [Happ Hwin].
  split; [|split; [done|split; [done|]]].
  - intros w. unfold _getHiddenApps. rewrite Hnull. by eexists.
  - intros tracker ws w. destruct (filterM_run disabled tracker ws w) as (es & ->).
    rewrite HH. eexists. f_equal.
    induction ws as [|x ws IH]; [done|].
    rewrite filter_cons_True; [by rewrite IH|].
    unfold window_hidden. destruct (tracker x); simpl; intros Hn; exact Hn.
Qed.

(** ** The settings mutations of the panel, continued *)

Lemma checkboxes_onAppToggled appId isActive st :
  Prefs.checkboxes (Prefs._onAppToggled appId isActive st) = Prefs.checkboxes st.
Proof. done. Qed.

Lemma elem_of_stored_onAppToggled appId isActive st x :
  x ∈ Prefs.stored (Prefs._onAppToggled appId isActive st)
  ↔ (x = appId ∧ isActive = true) ∨ (x ≠ appId ∧ x ∈ Prefs.stored st).
Proof.
  rewrite stored_onAppToggled. destruct isActive.
  - destruct (includes (Prefs.stored st) appId) eqn:E.
    + apply includes_true in E. destruct (decide (x = appId)) as [->|Hne].
      * split; [by left|done].
      * split; [by right|]. intros [[? _]|[_ ?]]; done.
    + rewrite elem_of_app, list_elem_of_singleton.
      apply includes_false in E. destruct (decide (x = appId)) as [->|Hne].
      * split; [by left|by right].
      * split; [intros [?|?]; [by right|done]|]. intros [[? _]|[_ ?]]; [done|by left].
  - rewrite list_elem_of_filter. split; [by right|].
    intros [[_ ?]|?]; done.
Qed.

Lemma click_checkbox_unfold appId st :
  Prefs.click_checkbox appId st
  = match Prefs.checkboxes st !! appId with
    | None => st
    | Some cur =>
        Prefs._onAppToggled appId (negb cur)
          {| Prefs.stored := Prefs.stored st;
             Prefs.checkboxes := <[appId := negb cur]> (Prefs.checkboxes st) |}
    end.
Proof.
  unfold Prefs.click_checkbox, Prefs.set_active.
  destruct (Prefs.checkboxes st !! appId) as [cur|]; [|done].
  rewrite bool_decide_false; [done|]. by destruct cur.
Qed.

Lemma removeHiddenApp_unfold appId st :
  Prefs._removeHiddenApp appId st
  = {| Prefs.stored := filter (λ id, id ≠ appId) (Prefs.stored st);
       Prefs.checkboxes :=
         match Prefs.checkboxes st !! appId with
         | Some _ => <[appId := false]> (Prefs.checkboxes st)
         | None => Prefs.checkboxes st
         end |}.
Proof.
  unfold Prefs._removeHiddenApp, Prefs.set_active. cbn [Prefs.set_strv
    Prefs.checkboxes Prefs.stored].
  destruct (Prefs.checkboxes st !! appId) as [cur|] eqn:Ecb; [|done].
  case_bool_decide as Hcur.
  - subst cur. unfold Prefs.set_strv. simpl. by rewrite insert_id.
  - unfold Prefs._onAppToggled, Prefs.set_strv. simpl.
    rewrite (proj2 (includes_false _ _) (filter_ne_not_elem appId _)). done.
Qed.

(** X4: what [_onAppToggled] does to the stored sequence: afterwards the
    identifier is stored exactly when the button is active, every other
    identifier is stored exactly when it was, the other identifiers keep
    their order, and the check buttons are not touched. *)
Theorem onAppToggled_postcondition (appId : string) (isActive : bool)
    (st : Prefs.State) :
  let st' := Prefs._onAppToggled appId isActive st in
  (appId ∈ Prefs.stored st' ↔ isActive = true)
  ∧ (∀ x, x ≠ appId → (x ∈ Prefs.stored st' ↔ x ∈ Prefs.stored st))
  ∧ filter (λ id, id ≠ appId) (Prefs.stored st')
    = filter (λ id, id ≠ appId) (Prefs.stored st)
  ∧ Prefs.checkboxes st' = Prefs.checkboxes st.
Proof.
  intros st'. split; [|split; [|split; [|done]]].
  - unfold st'. rewrite elem_of_stored_onAppToggled.
    split; [intros [[_ ?]|[? _]]; done|]. intros ->. by left.
  - intros x Hne. unfold st'. rewrite elem_of_stored_onAppToggled.
    split; [intros [[? _]|[_ ?]]; done|]. intros ?. by right.
  - unfold st'. rewrite stored_onAppToggled. destruct isActive.
    + destruct (includes (Prefs.stored st) appId); [done|].
      rewrite filter_app, filter_cons_False, filter_nil, app_nil_r; [done|].
      intros Hn. by apply Hn.
    + apply filter_idemp.
Qed.

(** X5: the two actions of the user keep the check buttons in step with
    the stored sequence: if every check button is active exactly when its
    identifier is stored, this is still so after a click on a check button
    and after [_removeHiddenApp]. *)
Theorem actions_keep_checkboxes_agree (appId : string) (st : Prefs.State) :
  PrefsUI.checkboxes_agree st →
  PrefsUI.checkboxes_agree (Prefs.click_checkbox appId st)
  ∧ PrefsUI.checkboxes_agree (Prefs._removeHiddenApp appId st).
Proof.
  intros Hagree. split.
  - rewrite click_checkbox_unfold.
    destruct (Prefs.checkboxes st !! appId) as [cur|] eqn:Ecb; [|done].
    intros x b. rewrite checkboxes_onAppToggled. cbn [Prefs.checkboxes].
    rewrite elem_of_stored_onAppToggled. cbn [Prefs.stored].
    destruct (decide (x = appId)) as [->|Hne].
    + rewrite lookup_insert_eq. intros [= <-].
      split; [by left|]. intros [[_ ?]|[? _]]; done.
    + rewrite lookup_insert_ne by done. intros Hx%Hagree. rewrite Hx.
      split; [by right|]. intros [[? _]|[_ ?]]; done.
  - rewrite removeHiddenApp_unfold. intros x b. cbn [Prefs.checkboxes Prefs.stored].
    rewrite list_elem_of_filter. destruct (decide (x = appId)) as [->|Hne].
    + destruct (Prefs.checkboxes st !! appId) as [cur|] eqn:Ecb.
      * rewrite lookup_insert_eq. intros [= <-]. split; [done|]. by intros [? _].
      * by rewrite Ecb.
    + assert (Hlk : match Prefs.checkboxes st !! appId with
                    | Some _ => <[appId:=false]> (Prefs.checkboxes st)
                    | None => Prefs.checkboxes st
                    end !! x = Prefs.checkboxes st !! x).
      { destruct (Prefs.checkboxes st !! appId); [|done].
        by rewrite lookup_insert_ne. }
      rewrite Hlk. intros Hx%Hagree. rewrite Hx. split; [done|by intros [_ ?]].
Qed.

Lemma actions_keep_checkboxes_agree_witness :
  PrefsUI.checkboxes_agree
    (Prefs.click_checkbox "org.gnome.Nautilus.desktop"
       {| Prefs.stored := ["org.gnome.Calculator.desktop"];
          Prefs.checkboxes := {[ "org.gnome.Nautilus.desktop" := false ]} |}).
Proof.
  apply (actions_keep_checkboxes_agree "org.gnome.Nautilus.desktop"
           {| Prefs.stored := ["org.gnome.Calculator.desktop"];
              Prefs.checkboxes := {[ "org.gnome.Nautilus.desktop" := false ]} |}).
  intros x b. simpl. intros [<- <-]%lookup_singleton_Some.
  split; [done|]. rewrite list_elem_of_singleton. discriminate.
Defined.

(** X6: checking an application and unchecking it again gives back the
    state there was: for a check button that is inactive and whose
    identifier is not stored, two clicks restore the stored sequence and the
    check buttons exactly. *)
Theorem toggle_on_then_off_round_trip (appId : string) (st : Prefs.State) :
  Prefs.checkboxes st !! appId = Some false →
  appId ∉ Prefs.stored st →
  Prefs.click_checkbox appId (Prefs.click_checkbox appId st) = st.
Proof.
  intros Hcb Habs. rewrite (click_checkbox_unfold appId st), Hcb.
  rewrite click_checkbox_unfold. rewrite checkboxes_onAppToggled.
  cbn [Prefs.checkboxes negb]. rewrite lookup_insert_eq. cbn [negb].
  unfold Prefs._onAppToggled, Prefs.set_strv.
  cbn [Prefs.stored Prefs.checkboxes andb negb].
  rewrite (proj2 (includes_false _ _) Habs). cbn [negb].
  assert (Hin : includes (Prefs.stored st ++ [appId]) appId = true).
  { apply includes_true, elem_of_app. right. apply list_elem_of_here. }
  rewrite Hin. rewrite filter_app, filter_ne_absent by done.
  rewrite filter_cons_False, filter_nil, app_nil_r by (intros Hn; by apply Hn).
  rewrite insert_insert_eq, insert_id by done. by destruct st.
Qed.

Lemma toggle_on_then_off_round_trip_witness :
  Prefs.click_checkbox "org.gnome.Nautilus.desktop"
    (Prefs.click_checkbox "org.gnome.Nautilus.desktop"
       {| Prefs.stored := ["org.gnome.Calculator.desktop"];
          Prefs.checkboxes := {[ "org.gnome.Nautilus.desktop" := false ]} |})
  = {| Prefs.stored := ["org.gnome.Calculator.desktop"];
       Prefs.checkboxes := {[ "org.gnome.Nautilus.desktop" := false ]} |}.
Proof.
  apply (toggle_on_then_off_round_trip "org.gnome.Nautilus.desktop"
           {| Prefs.stored := ["org.gnome.Calculator.desktop"];
              Prefs.checkboxes := {[ "org.gnome.Nautilus.desktop" := false ]} |}).
  - reflexivity.
  - simpl. rewrite list_elem_of_singleton. discriminate.
Defined.

Lemma filter_ne_app_Permutation (appId : string) (l : list string) :
  NoDup l → appId ∈ l → filter (λ id, id ≠ appId) l ++ [appId] ≡ₚ l.
Proof.
  intros Hnd Hin. apply NoDup_Permutation; [|done|].
  - apply NoDup_app. split; [by apply NoDup_filter|]. split; [|apply NoDup_singleton].
    intros x [Hne _]%list_elem_of_filter ->%list_elem_of_singleton. done.
  - intros x. rewrite elem_of_app, list_elem_of_filter, list_elem_of_singleton.
    destruct (decide (x = appId)) as [->|Hne].
    + split; [done|by right].
    + split; [by intros [[_ ?]|?]|by left].
Qed.

(** X7: unchecking a hidden application and checking it again keeps the
    same identifiers hidden but moves that one to the end: for an active
    check button whose identifier is stored, in a sequence without
    duplicates, two clicks leave a permutation of the stored sequence, which
    is the others in their order followed by the identifier, and the same
    check buttons. *)
Theorem toggle_off_then_on_moves_last (appId : string) (st : Prefs.State) :
  Prefs.checkboxes st !! appId = Some true →
  appId ∈ Prefs.stored st →
  NoDup (Prefs.stored st) →
  let st' := Prefs.click_checkbox appId (Prefs.click_checkbox appId st) in
  Prefs.stored st' = filter (λ id, id ≠ appId) (Prefs.stored st) ++ [appId]
  ∧ Prefs.stored st' ≡ₚ Prefs.stored st
  ∧ Prefs.checkboxes st' = Prefs.checkboxes st.
Proof.
  intros Hcb Hin Hnd st'.
  assert (Hst' : st' = {| Prefs.stored :=
                            filter (λ id, id ≠ appId) (Prefs.stored st) ++ [appId];
                          Prefs.checkboxes := Prefs.checkboxes st |}).
  { unfold st'. rewrite (click_checkbox_unfold appId st), Hcb.
    rewrite click_checkbox_unfold. rewrite checkboxes_onAppToggled.
    cbn [Prefs.checkboxes negb]. rewrite lookup_insert_eq. cbn [negb].
    unfold Prefs._onAppToggled, Prefs.set_strv.
    cbn [Prefs.stored Prefs.checkboxes andb negb].
    rewrite (proj2 (includes_true _ _) Hin). cbn [negb].
    rewrite (proj2 (includes_false _ _) (filter_ne_not_elem appId _)).
    cbn [negb]. by rewrite insert_insert_eq, insert_id. }
  rewrite Hst'. cbn [Prefs.stored Prefs.checkboxes].
  split; [done|]. split; [by apply filter_ne_app_Permutation|done].
Qed.

Lemma toggle_off_then_on_moves_last_witness :
  Prefs.stored
    (Prefs.click_checkbox "org.gnome.Calculator.desktop"
       (Prefs.click_checkbox "org.gnome.Calculator.desktop"
          {| Prefs.stored := ["org.gnome.Calculator.desktop";
                              "org.gnome.Nautilus.desktop"];
             Prefs.checkboxes := {[ "org.gnome.Calculator.desktop" := true ]} |}))
  = ["org.gnome.Nautilus.desktop"; "org.gnome.Calculator.desktop"].
Proof.
  apply (toggle_off_then_on_moves_last "org.gnome.Calculator.desktop"
           {| Prefs.stored := ["org.gnome.Calculator.desktop";
                               "org.gnome.Nautilus.desktop"];
              Prefs.checkboxes := {[ "org.gnome.Calculator.desktop" := true ]} |}).
  - reflexivity.
  - apply list_elem_of_here.
  - simpl. apply NoDup_cons. split.
    + rewrite list_elem_of_singleton. discriminate.
    + apply NoDup_singleton.
Defined.

(** X8: what [_removeHiddenApp] leaves: the identifier is no longer stored,
    the other identifiers are stored as before and in the same order, the
    check button of the identifier, if there is one, is inactive, and no
    other check button changes. *)
Theorem removeHiddenApp_postcondition (appId : string) (st : Prefs.State) :
  let st' := Prefs._removeHiddenApp appId st in
  (appId ∉ Prefs.stored st')
  ∧ (∀ x, x ≠ appId → (x ∈ Prefs.stored st' ↔ x ∈ Prefs.stored st))
  ∧ Prefs.stored st' `sublist_of` Prefs.stored st
  ∧ Prefs.checkboxes st' !! appId
    = (λ _, false) <$> Prefs.checkboxes st !! appId
  ∧ (∀ x, x ≠ appId →
          Prefs.checkboxes st' !! x = Prefs.checkboxes st !! x).
Proof.
  intros st'. unfold st'. rewrite removeHiddenApp_unfold.
  cbn [Prefs.stored Prefs.checkboxes].
  split; [apply filter_ne_not_elem|]. split.
  { intros x Hne. rewrite list_elem_of_filter. split; [by intros [_ ?]|done]. }
  split; [apply sublist_filter|]. split.
  - destruct (Prefs.checkboxes st !! appId) eqn:Ecb.
    + by rewrite lookup_insert_eq.
    + by rewrite Ecb.
  - intros x Hne. destruct (Prefs.checkboxes st !! appId); [|done].
    by rewrite lookup_insert_ne.
Qed.

(** ** The rows of the panel *)

Lemma truthy_Some o s : PrefsUI.truthy o = Some s ↔ o = Some s ∧ s ≠ "".
Proof.
  unfold PrefsUI.truthy. destruct o as [s'|]; [|by split; [|intros [? _]]].
  case_bool_decide as Hs.
  - split; [done|]. intros [[= ->] ?]. done.
  - split; [by intros [= ->]|by intros [? _]].
Qed.


Lemma string_app_cons c (x y : string) : String c x +:+ y = String c (x +:+ y).
Proof. reflexivity. Qed.

Lemma string_app_assoc (x y z : string) : (x +:+ y) +:+ z = x +:+ y +:+ z.
Proof.
  induction x as [|c x IH]; [done|]. by rewrite !string_app_cons, IH.
Qed.

Lemma prefix_occurs (p s : string) :
  String.prefix p s = true ↔ ∃ b, s = p +:+ b.
Proof.
  revert s. induction p as [|c p IH]; intros s.
  - split; [|by destruct s]. intros _. by exists s.
  - destruct s as [|d s]; simpl.
    + split; [done|]. intros [b Hb]. by rewrite string_app_cons in Hb.
    + destruct (Ascii.ascii_dec c d) as [->|Hne].
      * rewrite IH. split; intros [b Hb]; exists b.
        -- by rewrite string_app_cons, Hb.
        -- rewrite string_app_cons in Hb. by injection Hb.
      * split; [done|]. intros [b Hb]. rewrite string_app_cons in Hb.
        injection Hb as Hcd _. by destruct Hne.
Qed.

Lemma str_includes_occurs (s p : string) :
  PrefsUI.str_includes s p = true ↔ occurs p s.
Proof.
  unfold occurs. induction s as [|c s IH]; cbn [PrefsUI.str_includes].
  - rewrite orb_false_r, prefix_occurs. split.
    + intros [b Hb]. by exists "", b.
    + intros ([|? a] & b & Hab); [by exists b|].
      by rewrite string_app_cons in Hab.
  - rewrite orb_true_iff, prefix_occurs, IH. split.
    + intros [[b Hb]|(a & b & Hab)].
      * by exists "", b.
      * exists (String c a), b. by rewrite string_app_cons, Hab.
    + intros ([|c' a] & b & Hab).
      * left. by exists b.
      * right. exists a, b. rewrite string_app_cons in Hab. by injection Hab.
Qed.

Lemma occurs_empty (s : string) : occurs "" s.
Proof. by exists "", s. Qed.

Lemma occurs_trans (p1 p2 s : string) : occurs p1 p2 → occurs p2 s → occurs p1 s.
Proof.
  intros (c & d & ->) (a & b & ->). exists (a +:+ c), (d +:+ b).
  by rewrite !string_app_assoc.
Qed.

Lemma filterApps_visible searchText (row : PrefsUI.AppRow) :
  (bool_decide (searchText = "")
   || PrefsUI.str_includes (PrefsUI._appName row) searchText
   || PrefsUI.str_includes (PrefsUI._appId row) searchText) = true
  ↔ occurs searchText (PrefsUI._appName row)
    ∨ occurs searchText (PrefsUI._appId row).
Proof.
  rewrite !orb_true_iff, bool_decide_eq_true, !str_includes_occurs. split.
  - intros [[->|?]|?]; [left; apply occurs_empty|by left|by right].
  - intros [?|?]; [left; by right|by right].
Qed.

(** X9: the search of [_filterApps] is a substring search on the two stored
    fields: after it a row is visible exactly when the text occurs in its
    [_appName] or in its [_appId] (the empty text occurs everywhere); the
    rows keep their place, their titles and their fields, and nothing else
    of the panel changes. *)
Theorem filterApps_visible_iff (searchText : string) (p : PrefsUI.Panel) :
  let p' := PrefsUI._filterApps searchText p in
  PrefsUI.state p' = PrefsUI.state p
  ∧ PrefsUI._hiddenAppRows p' = PrefsUI._hiddenAppRows p
  ∧ length (PrefsUI._appRows p') = length (PrefsUI._appRows p)
  ∧ ∀ i row, PrefsUI._appRows p !! i = Some row →
      ∃ row', PrefsUI._appRows p' !! i = Some row'
              ∧ PrefsUI.row_title row' = PrefsUI.row_title row
              ∧ PrefsUI.row_subtitle row' = PrefsUI.row_subtitle row
              ∧ PrefsUI._appName row' = PrefsUI._appName row
              ∧ PrefsUI._appId row' = PrefsUI._appId row
              ∧ (PrefsUI.visible row' = true
                 ↔ occurs searchText (PrefsUI._appName row)
                   ∨ occurs searchText (PrefsUI._appId row)).
Proof.
  intros p'. split; [done|]. split; [done|]. split.
  { unfold p', PrefsUI._filterApps. cbn [PrefsUI._appRows]. apply length_fmap. }
  intros i row Hrow. unfold p', PrefsUI._filterApps. cbn [PrefsUI._appRows].
  rewrite list_lookup_fmap, Hrow. eexists. split; [reflexivity|].
  cbn [PrefsUI.set_visible PrefsUI.row_title PrefsUI.row_subtitle
       PrefsUI._appName PrefsUI._appId PrefsUI.visible].
  repeat (split; [done|]). apply filterApps_visible.
Qed.

(** X10: typing more never brings a row back, and a search forgets the one
    before it: if [s1] occurs in [s2], every row visible for [s2] is visible
    for [s1]; the empty text shows every row; and filtering for [s1] after
    filtering for [s2] gives what filtering for [s1] alone gives. *)
Theorem filterApps_narrowing (s1 s2 : string) (p : PrefsUI.Panel) :
  occurs s1 s2 →
  (∀ i row1 row2,
     PrefsUI._appRows (PrefsUI._filterApps s1 p) !! i = Some row1 →
     PrefsUI._appRows (PrefsUI._filterApps s2 p) !! i = Some row2 →
     PrefsUI.visible row2 = true → PrefsUI.visible row1 = true)
  ∧ (∀ row, row ∈ PrefsUI._appRows (PrefsUI._filterApps "" p) →
            PrefsUI.visible row = true)
  ∧ PrefsUI._filterApps s1 (PrefsUI._filterApps s2 p) = PrefsUI._filterApps s1 p.
Proof.
  intros Hocc. split; [|split].
  - intros i row1 row2. unfold PrefsUI._filterApps. cbn [PrefsUI._appRows].
    rewrite !list_lookup_fmap_Some.
    intros (r1 & -> & Hr1) (r2 & -> & Hr2). simplify_eq.
    cbn [PrefsUI.set_visible PrefsUI.visible]. rewrite !filterApps_visible.
    intros [?|?]; [left|right]; by eapply occurs_trans.
  - intros row. unfold PrefsUI._filterApps. cbn [PrefsUI._appRows].
    rewrite list_elem_of_fmap. by intros (r & -> & _).
  - unfold PrefsUI._filterApps. cbn [PrefsUI._appRows PrefsUI.state
      PrefsUI._hiddenAppRows]. f_equal.
    rewrite <-list_fmap_compose. apply list_fmap_ext. intros i row _. done.
Qed.

Lemma filterApps_narrowing_witness :
  PrefsUI._filterApps "calc" (PrefsUI._filterApps "calculator" example_panel)
  = PrefsUI._filterApps "calc" example_panel.
Proof.
  apply (filterApps_narrowing "calc" "calculator" example_panel).
  by exists "", "ulator".
Defined.

(** *** Loading the applications *)

Lemma load_loop_checkboxes_stable toLowerCase hiddenApps apps appId :
  ∀ checkboxes appRows,
    checkboxes !! appId = Some (includes hiddenApps appId) →
    (PrefsUI.load_loop toLowerCase hiddenApps apps checkboxes appRows).1 !! appId
    = Some (includes hiddenApps appId).
Proof.
  induction apps as [|app apps IH]; intros checkboxes appRows Hcb; [done|].
  cbn [PrefsUI.load_loop].
  destruct (PrefsUI.truthy (PrefsUI.info_get_display_name app)) as [n|];
    [|by apply IH].
  destruct (PrefsUI.truthy (PrefsUI.info_get_id app)) as [i|]; [|by apply IH].
  apply IH. destruct (decide (i = appId)) as [->|Hne].
  - by rewrite lookup_insert_eq.
  - by rewrite lookup_insert_ne.
Qed.

Lemma load_loop_checkboxes_origin toLowerCase hiddenApps apps appId b :
  ∀ checkboxes appRows,
    (PrefsUI.load_loop toLowerCase hiddenApps apps checkboxes appRows).1 !! appId
    = Some b →
    checkboxes !! appId = Some b ∨ b = includes hiddenApps appId.
Proof.
  induction apps as [|app apps IH]; intros checkboxes appRows; [by left|].
  cbn [PrefsUI.load_loop].
  destruct (PrefsUI.truthy (PrefsUI.info_get_display_name app)) as [n|];
    [|by apply IH].
  destruct (PrefsUI.truthy (PrefsUI.info_get_id app)) as [i|]; [|by apply IH].
  intros [Hcb| ->]%IH; [|by right].
  destruct (decide (i = appId)) as [->|Hne].
  - rewrite lookup_insert_eq in Hcb. right. congruence.
  - rewrite lookup_insert_ne in Hcb by done. by left.
Qed.

Lemma load_loop_checkboxes_other toLowerCase hiddenApps apps appId :
  ∀ checkboxes appRows,
    (∀ app, app ∈ apps →
            PrefsUI.truthy (PrefsUI.info_get_display_name app) ≠ None →
            PrefsUI.truthy (PrefsUI.info_get_id app) ≠ Some appId) →
    (PrefsUI.load_loop toLowerCase hiddenApps apps checkboxes appRows).1 !! appId
    = checkboxes !! appId.
Proof.
  induction apps as [|app apps IH]; intros checkboxes appRows Hother; [done|].
  cbn [PrefsUI.load_loop].
  assert (Hrest : ∀ app', app' ∈ apps →
            PrefsUI.truthy (PrefsUI.info_get_display_name app') ≠ None →
            PrefsUI.truthy (PrefsUI.info_get_id app') ≠ Some appId).
  { intros app' Hin. apply Hother. by apply list_elem_of_further. }
  pose proof (Hother app (list_elem_of_here _ _)) as Happ.
  destruct (PrefsUI.truthy (PrefsUI.info_get_display_name app)) as [n|];
    [|by apply IH].
  destruct (PrefsUI.truthy (PrefsUI.info_get_id app)) as [i|]; [|by apply IH].
  rewrite IH by done. apply lookup_insert_ne. intros ->. by apply Happ.
Qed.

Lemma load_loop_checkboxes_covered toLowerCase hiddenApps apps app n i :
  ∀ checkboxes appRows,
    app ∈ apps →
    PrefsUI.truthy (PrefsUI.info_get_display_name app) = Some n →
    PrefsUI.truthy (PrefsUI.info_get_id app) = Some i →
    (PrefsUI.load_loop toLowerCase hiddenApps apps checkboxes appRows).1 !! i
    = Some (includes hiddenApps i).
Proof.
  induction apps as [|app' apps IH]; intros checkboxes appRows Hin Hn Hi.
  - by apply elem_of_nil in Hin.
  - cbn [PrefsUI.load_loop]. apply elem_of_cons in Hin as [<-|Hin].
    + rewrite Hn, Hi. apply load_loop_checkboxes_stable, lookup_insert_eq.
    + destruct (PrefsUI.truthy (PrefsUI.info_get_display_name app')) as [n'|];
        [|by apply IH].
      destruct (PrefsUI.truthy (PrefsUI.info_get_id app')) as [i'|];
        by apply IH.
Qed.

Lemma load_loop_rows toLowerCase hiddenApps apps row :
  ∀ checkboxes appRows,
    row ∈ (PrefsUI.load_loop toLowerCase hiddenApps apps checkboxes appRows).2
    ↔ row ∈ appRows
      ∨ ∃ app n i,
          app ∈ apps
          ∧ PrefsUI.truthy (PrefsUI.info_get_display_name app) = Some n
          ∧ PrefsUI.truthy (PrefsUI.info_get_id app) = Some i
          ∧ row = {| PrefsUI.row_title := n; PrefsUI.row_subtitle := i;
                     PrefsUI._appName := toLowerCase n;
                     PrefsUI._appId := toLowerCase i;
                     PrefsUI.visible := true |}.
Proof.
  induction apps as [|app apps IH]; intros checkboxes appRows.
  - simpl. split; [by left|]. intros [?|(? & ? & ? & ?%elem_of_nil & _)]; done.
  - cbn [PrefsUI.load_loop].
    destruct (PrefsUI.truthy (PrefsUI.info_get_display_name app)) as [n|] eqn:En.
    2: { rewrite IH. split.
         - intros [?|(a & n & i & Hin & ?)]; [by left|].
           right. exists a, n, i. split; [by apply list_elem_of_further|done].
         - intros [?|(a & n & i & Hin & Hn & ?)]; [by left|].
           apply elem_of_cons in Hin as [->|Hin]; [congruence|].
           right. by exists a, n, i. }
    destruct (PrefsUI.truthy (PrefsUI.info_get_id app)) as [i|] eqn:Ei.
    2: { rewrite IH. split.
         - intros [?|(a & n' & i & Hin & ?)]; [by left|].
           right. exists a, n', i. split; [by apply list_elem_of_further|done].
         - intros [?|(a & n' & i & Hin & Hn & Hi & ?)]; [by left|].
           apply elem_of_cons in Hin as [->|Hin]; [congruence|].
           right. by exists a, n', i. }
    rewrite IH, elem_of_app, list_elem_of_singleton. split.
    + intros [[?| ->]|(a & n' & i' & Hin & ?)].
      * by left.
      * right. exists app, n, i. split; [apply list_elem_of_here|done].
      * right. exists a, n', i'. split; [by apply list_elem_of_further|done].
    + intros [?|(a & n' & i' & Hin & Hn & Hi & ->)]; [left; by left|].
      apply elem_of_cons in Hin as [->|Hin].
      * left. right. congruence.
      * right. by exists a, n', i'.
Qed.

Lemma shown_ids_updateHiddenAppsList display_name p :
  PrefsUI.shown_ids
    (PrefsUI._hiddenAppRows (PrefsUI._updateHiddenAppsList display_name p))
  = Prefs.stored (PrefsUI.state p).
Proof.
  unfold PrefsUI._updateHiddenAppsList. cbn [PrefsUI._hiddenAppRows].
  destruct (Prefs.stored (PrefsUI.state p)) as [|x l]; [done|].
  cbn [length Nat.eqb]. unfold PrefsUI.shown_ids.
  generalize (x :: l). intros k. induction k as [|y k IH]; [done|].
  cbn. f_equal. exact IH.
Qed.

Lemma loadInstalledApps_unfold sort toLowerCase apps hiddenApps p :
  PrefsUI._loadInstalledApps sort toLowerCase apps hiddenApps p
  = let r := PrefsUI.load_loop toLowerCase hiddenApps
               (sort (filter (λ app, PrefsUI.info_should_show app = true) apps))
               (Prefs.checkboxes (PrefsUI.state p)) [] in
    {| PrefsUI.state := {| Prefs.stored := Prefs.stored (PrefsUI.state p);
                           Prefs.checkboxes := r.1 |};
       PrefsUI._hiddenAppRows := PrefsUI._hiddenAppRows p;
       PrefsUI._appRows := r.2 |}.
Proof.
  unfold PrefsUI._loadInstalledApps. cbv zeta.
  by destruct (PrefsUI.load_loop _ _ _ _ _).
Qed.

Lemma NoHiddenAppsRow_updateHiddenAppsList display_name p :
  PrefsUI.NoHiddenAppsRow
    ∈ PrefsUI._hiddenAppRows (PrefsUI._updateHiddenAppsList display_name p)
  ↔ Prefs.stored (PrefsUI.state p) = [].
Proof.
  unfold PrefsUI._updateHiddenAppsList. cbn [PrefsUI._hiddenAppRows].
  destruct (Prefs.stored (PrefsUI.state p)) as [|x l].
  - split; [done|]. intros _. apply list_elem_of_here.
  - cbn [length Nat.eqb]. split; [|done].
    intros (y & Hy & _)%list_elem_of_fmap. done.
Qed.

(** X11: a panel as [_init] builds it is consistent with the stored
    sequence, whatever the installed applications and the order the sort
    puts them in: every check button is active exactly when its identifier
    is stored, the list of hidden applications shows the stored identifiers
    in their order, the placeholder row is there exactly when nothing is
    stored, and every application row is visible. *)
Theorem init_panel_consistent (sort : list PrefsUI.AppInfo → list PrefsUI.AppInfo)
    (toLowerCase : string → string) (apps : list PrefsUI.AppInfo)
    (display_name : string → option string) (hiddenApps : list string) :
  let p := PrefsUI._init sort toLowerCase apps display_name hiddenApps in
  Prefs.stored (PrefsUI.state p) = hiddenApps
  ∧ PrefsUI.checkboxes_agree (PrefsUI.state p)
  ∧ PrefsUI.shown_ids (PrefsUI._hiddenAppRows p) = hiddenApps
  ∧ (PrefsUI.NoHiddenAppsRow ∈ PrefsUI._hiddenAppRows p ↔ hiddenApps = [])
  ∧ (∀ row, row ∈ PrefsUI._appRows p → PrefsUI.visible row = true).
Proof.
  intros p. unfold p, PrefsUI._init, PrefsUI._buildUI.
  rewrite loadInstalledApps_unfold. cbv zeta.
  cbn [PrefsUI.state PrefsUI._hiddenAppRows PrefsUI._appRows Prefs.stored
       Prefs.checkboxes].
  split; [done|]. split; [|split; [|split]].
  - intros appId b. cbn [Prefs.stored Prefs.checkboxes].
    intros [Hcb| ->]%load_loop_checkboxes_origin.
    + change ((∅ : gmap string bool) !! appId = Some b) in Hcb.
      by rewrite lookup_empty in Hcb.
    + apply includes_true.
  - apply (shown_ids_updateHiddenAppsList display_name
             {| PrefsUI.state := {| Prefs.stored := hiddenApps;
                                    Prefs.checkboxes := ∅ |};
                PrefsUI._hiddenAppRows := []; PrefsUI._appRows := [] |}).
  - apply (NoHiddenAppsRow_updateHiddenAppsList display_name
             {| PrefsUI.state := {| Prefs.stored := hiddenApps;
                                    Prefs.checkboxes := ∅ |};
                PrefsUI._hiddenAppRows := []; PrefsUI._appRows := [] |}).
  - intros row [?%elem_of_nil|(a & n & i & _ & _ & _ & ->)]%load_loop_rows; done.
Qed.

(** X12: [_loadInstalledApps] gives a check button and a row to every
    application that should be shown and has a non-empty name and a
    non-empty identifier, and to no other: the button is active exactly when
    the identifier is among [hiddenApps]; every row comes from such an
    application; the check button of any other identifier is left as it
    was. The sort only has to give back the applications it was given. *)
Theorem loadInstalledApps_covers (sort : list PrefsUI.AppInfo → list PrefsUI.AppInfo)
    (toLowerCase : string → string) (apps : list PrefsUI.AppInfo)
    (hiddenApps : list string) (p : PrefsUI.Panel) :
  (∀ l, sort l ≡ₚ l) →
  let p' := PrefsUI._loadInstalledApps sort toLowerCase apps hiddenApps p in
  (∀ app n i,
     app ∈ apps → PrefsUI.info_should_show app = true →
     PrefsUI.truthy (PrefsUI.info_get_display_name app) = Some n →
     PrefsUI.truthy (PrefsUI.info_get_id app) = Some i →
     Prefs.checkboxes (PrefsUI.state p') !! i = Some (includes hiddenApps i)
     ∧ {| PrefsUI.row_title := n; PrefsUI.row_subtitle := i;
          PrefsUI._appName := toLowerCase n; PrefsUI._appId := toLowerCase i;
          PrefsUI.visible := true |} ∈ PrefsUI._appRows p')
  ∧ (∀ row, row ∈ PrefsUI._appRows p' →
       ∃ app, app ∈ apps ∧ PrefsUI.info_should_show app = true
              ∧ PrefsUI.info_get_display_name app = Some (PrefsUI.row_title row)
              ∧ PrefsUI.info_get_id app = Some (PrefsUI.row_subtitle row)
              ∧ PrefsUI.row_title row ≠ "" ∧ PrefsUI.row_subtitle row ≠ "")
  ∧ (∀ i, (∀ app, app ∈ apps → PrefsUI.info_should_show app = true →
                  PrefsUI.truthy (PrefsUI.info_get_display_name app) ≠ None →
                  PrefsUI.truthy (PrefsUI.info_get_id app) ≠ Some i) →
          Prefs.checkboxes (PrefsUI.state p') !! i
          = Prefs.checkboxes (PrefsUI.state p) !! i)
  ∧ Prefs.stored (PrefsUI.state p') = Prefs.stored (PrefsUI.state p)
  ∧ PrefsUI._hiddenAppRows p' = PrefsUI._hiddenAppRows p.
Proof.
  intros Hsort p'. unfold p'. rewrite loadInstalledApps_unfold. cbv zeta.
  cbn [PrefsUI.state PrefsUI._hiddenAppRows PrefsUI._appRows Prefs.stored
       Prefs.checkboxes].
  assert (Hin : ∀ app,
            app ∈ sort (filter (λ app, PrefsUI.info_should_show app = true) apps)
            ↔ app ∈ apps ∧ PrefsUI.info_should_show app = true).
  { intros app. rewrite (Hsort _), list_elem_of_filter. by split; intros [? ?]. }
  split; [|split; [|split; [|done]]].
  - intros app n i Happ Hshow Hn Hi. split.
    + eapply load_loop_checkboxes_covered; [|done..]. by apply Hin.
    + apply load_loop_rows. right. exists app, n, i. split; [by apply Hin|done].
  - intros row [?%elem_of_nil|(a & n & i & Ha & Hn & Hi & ->)]%load_loop_rows;
      [done|].
    apply Hin in Ha as [Ha Hshow]. apply truthy_Some in Hn as [Hn ?].
    apply truthy_Some in Hi as [Hi ?]. exists a. by cbn.
  - intros i Hother. apply load_loop_checkboxes_other.
    intros app [Happ Hshow]%Hin. by apply Hother.
Qed.

Lemma loadInstalledApps_covers_witness :
  Prefs.checkboxes (PrefsUI.state example_panel) !! "org.gnome.Calculator.desktop"
  = Some true
  ∧ {| PrefsUI.row_title := "Calculator";
       PrefsUI.row_subtitle := "org.gnome.Calculator.desktop";
       PrefsUI._appName := "Calculator";
       PrefsUI._appId := "org.gnome.Calculator.desktop";
       PrefsUI.visible := true |} ∈ PrefsUI._appRows example_panel.
Proof.
  refine (proj1 (loadInstalledApps_covers id id example_apps
                   ["org.gnome.Calculator.desktop"]
                   (PrefsUI._updateHiddenAppsList example_display_name
                      {| PrefsUI.state :=
                           {| Prefs.stored := ["org.gnome.Calculator.desktop"];
                              Prefs.checkboxes := ∅ |};
                         PrefsUI._hiddenAppRows := []; PrefsUI._appRows := [] |})
                   _)
            {| PrefsUI.info_should_show := true;
               PrefsUI.info_get_id := Some "org.gnome.Calculator.desktop";
               PrefsUI.info_get_display_name := Some "Calculator" |}
            "Calculator" "org.gnome.Calculator.desktop" _ _ _ _).
  - intros l. reflexivity.
  - unfold example_apps. apply list_elem_of_further, list_elem_of_further,
      list_elem_of_here.
  - reflexivity.
  - reflexivity.
  - reflexivity.
Defined.

(** X13: the remove button of a row takes that row, and only that row, out
    of the list of hidden applications: after [_removeHiddenApp] and the
    change handler the list shows the identifiers that were stored, without
    the removed one and in their order, each under the display name of its
    application or, failing that, under the identifier itself; the
    placeholder row is shown exactly when nothing else was stored. *)
Theorem remove_button_removes_row (display_name : string → option string)
    (appId : string) (p : PrefsUI.Panel) :
  let p' := PrefsUI.act display_name (Prefs._removeHiddenApp appId) p in
  PrefsUI.shown_ids (PrefsUI._hiddenAppRows p')
  = filter (λ id, id ≠ appId) (Prefs.stored (PrefsUI.state p))
  ∧ (appId ∉ PrefsUI.shown_ids (PrefsUI._hiddenAppRows p'))
  ∧ (∀ title subtitle,
       PrefsUI.HiddenAppRow title subtitle ∈ PrefsUI._hiddenAppRows p' →
       title = default subtitle (display_name subtitle))
  ∧ (PrefsUI.NoHiddenAppsRow ∈ PrefsUI._hiddenAppRows p'
     ↔ ∀ x, x ∈ Prefs.stored (PrefsUI.state p) → x = appId)
  ∧ PrefsUI._appRows p' = PrefsUI._appRows p.
Proof.
  intros p'.
  assert (Hshown : PrefsUI.shown_ids (PrefsUI._hiddenAppRows p')
                   = filter (λ id, id ≠ appId) (Prefs.stored (PrefsUI.state p))).
  { unfold p', PrefsUI.act. rewrite shown_ids_updateHiddenAppsList.
    cbn [PrefsUI.state]. apply stored_removeHiddenApp. }
  split; [done|]. split; [rewrite Hshown; apply filter_ne_not_elem|].
  split; [|split; [|done]].
  - intros title subtitle. unfold p', PrefsUI.act, PrefsUI._updateHiddenAppsList.
    cbn [PrefsUI._hiddenAppRows PrefsUI.state].
    destruct (length _ =? 0).
    + intros ?%list_elem_of_singleton. done.
    + intros (y & [= -> ->] & _)%list_elem_of_fmap. done.
  - unfold p', PrefsUI.act. rewrite NoHiddenAppsRow_updateHiddenAppsList.
    cbn [PrefsUI.state]. rewrite stored_removeHiddenApp. split.
    + intros Hnil x Hx. destruct (decide (x = appId)) as [|Hne]; [done|].
      assert (x ∈ filter (λ id, id ≠ appId) (Prefs.stored (PrefsUI.state p)))
        as Hin by by apply list_elem_of_filter.
      rewrite Hnil in Hin. by apply elem_of_nil in Hin.
    + intros Hall. clear Hshown.
      induction (Prefs.stored (PrefsUI.state p)) as [|y l IH]; [done|].
      rewrite filter_cons_False.
      * apply IH. intros x Hx. apply Hall. by apply list_elem_of_further.
      * intros Hne. apply Hne, Hall, list_elem_of_here.
Qed.

(** ** The wrappers, continued *)

Lemma count_events_app f es1 es2 :
  count_events f (es1 ++ es2) = count_events f es1 + count_events f es2.
Proof. induction es1 as [|e es1 IH]; simpl; [done|]. rewrite IH. lia. Qed.

Lemma count_events_log_events f self m :
  f (EvLog m) = false → count_events f (log_events self m) = 0.
Proof.
  unfold log_events. intros Hf. destruct (ext_flavour self); simpl; [|done].
  by rewrite Hf.
Qed.

Lemma count_is_log_log_events self m :
  ext_flavour self = GithubIo → count_events is_log (log_events self m) = 0.
Proof. unfold log_events. by intros ->. Qed.

Lemma shouldHideApp_none_run self w :
  _shouldHideApp self None w = Ok false (add_events (settings_events self) w).
Proof.
  unfold _shouldHideApp. rewrite (bind_ok _ _ _ _ _ (getHiddenApps_run self w)).
  by destruct (length (hidden_set self) =? 0).
Qed.

Lemma shouldHideWindow_counts self tracker window w :
  ∃ es,
    _shouldHideWindow self tracker window w
    = Ok (window_hidden (hidden_set self) tracker window) (add_events es w)
    ∧ count_events is_settings_read es
      = match _settings self with Some _ => 1 | None => 0 end
    ∧ count_events is_tracker_lookup es
      = match hidden_set self with [] => 0 | _ => 1 end
    ∧ (ext_flavour self = GithubIo → count_events is_log es = 0)
    ∧ removal_order es = [] ∧ (∀ arr, splice_order arr es = []).
Proof.
  assert (Hread : count_events is_settings_read (settings_events self)
                  = match _settings self with Some _ => 1 | None => 0 end).
  { unfold settings_events. by destruct (_settings self). }
  assert (Htrk : count_events is_tracker_lookup (settings_events self) = 0).
  { unfold settings_events. by destruct (_settings self). }
  assert (Hlog : count_events is_log (settings_events self) = 0).
  { unfold settings_events. by destruct (_settings self). }
  unfold _shouldHideWindow, window_hidden.
  rewrite (bind_ok _ _ _ _ _ (getHiddenApps_run self w)).
  destruct (hidden_set self) as [|h H] eqn:EH; cbn [length Nat.eqb].
  - eexists. split; [unfold ret; by destruct (tracker window)|].
    rewrite removal_order_settings. split; [done|]. split; [done|].
    split; [done|]. split; [done|]. intros arr. apply splice_order_settings.
  - unfold tracker_get_window_app.
    unfold bind at 1. unfold bind at 1. unfold emit, ret at 1.
    rewrite add_event_events, add_events_add_events.
    destruct (tracker window) as [a|].
    + rewrite (bind_ok _ _ _ _ _ (get_id_run _ _)). cbv zeta.
      destruct (includes (h :: H) (app_id a)).
      * rewrite (bind_ok _ _ _ _ _ (log_run _ _ _)).
        rewrite !add_events_add_events. eexists. split; [reflexivity|].
        rewrite !count_events_app, !removal_order_app, Hread, Htrk, Hlog,
          removal_order_settings, removal_order_log,
          !count_events_log_events by done.
        split; [simpl; lia|]. split; [simpl; lia|]. split.
        { intros Hio. rewrite count_is_log_log_events by done. simpl. lia. }
        split; [done|]. intros arr.
        by rewrite !splice_order_app, splice_order_settings, splice_order_log.
      * unfold bind, ret. rewrite !add_events_add_events.
        eexists. split; [reflexivity|].
        rewrite !count_events_app, !removal_order_app, Hread, Htrk, Hlog,
          removal_order_settings.
        split; [simpl; lia|]. split; [simpl; lia|]. split; [simpl; lia|].
        split; [done|]. intros arr.
        by rewrite !splice_order_app, splice_order_settings.
    + unfold ret. eexists. split; [reflexivity|].
      rewrite !count_events_app, !removal_order_app, Hread, Htrk, Hlog,
        removal_order_settings.
      split; [simpl; lia|]. split; [simpl; lia|]. split; [simpl; lia|].
      split; [done|]. intros arr.
      by rewrite !splice_order_app, splice_order_settings.
Qed.

Lemma filterM_counts self tracker ws :
  ∀ w, ∃ es,
    filterM (λ window,
               hide <- _shouldHideWindow self tracker window ;;
               ret (negb hide)) ws w
    = Ok (filter (λ x, ¬ window_hidden (hidden_set self) tracker x) ws)
         (add_events es w)
    ∧ count_events is_settings_read es
      = match _settings self with Some _ => length ws | None => 0 end
    ∧ count_events is_tracker_lookup es
      = match hidden_set self with [] => 0 | _ => length ws end
    ∧ (ext_flavour self = GithubIo → count_events is_log es = 0)
    ∧ removal_order es = [] ∧ (∀ arr, splice_order arr es = []).
Proof.
  induction ws as [|x ws IH]; intros w.
  - exists []. rewrite add_events_nil. split; [done|].
    split; [by destruct (_settings self)|].
    split; [by destruct (hidden_set self)|]. done.
  - cbn [filterM]. rewrite bind_assoc.
    destruct (shouldHideWindow_counts self tracker x w)
      as (es1 & Hx & Hr1 & Ht1 & Hl1 & Hrm1 & Hs1).
    rewrite (bind_ok _ _ _ _ _ Hx). unfold bind at 1. unfold ret at 1.
    destruct (IH (add_events es1 w)) as (es2 & Hws & Hr2 & Ht2 & Hl2 & Hrm2 & Hs2).
    rewrite (bind_ok _ _ _ _ _ Hws). unfold ret.
    rewrite add_events_add_events. exists (es1 ++ es2). split.
    { f_equal.
      destruct (window_hidden (hidden_set self) tracker x) eqn:E; simpl.
      + rewrite filter_cons_False; [done|]. rewrite E. intros Hn. by apply Hn.
      + rewrite filter_cons_True; [done|]. rewrite E. intros Hn. exact Hn. }
    rewrite !count_events_app, removal_order_app, Hr1, Hr2, Ht1, Ht2, Hrm1, Hrm2.
    split; [by destruct (_settings self)|].
    split; [by destruct (hidden_set self)|].
    split; [intros Hio; rewrite Hl1, Hl2 by done; done|].
    split; [done|]. intros arr. by rewrite splice_order_app, Hs1, Hs2.
Qed.

Lemma filtered_window_list_world k self tracker originalMethod w windows w1 ws :
  originalMethod (add_events (log_events self (LogCalled k)) w) = Ok windows w1 →
  win_heap w1 !! windows = Some ws →
  ∃ filteredWindows es,
    filtered_window_list k self tracker originalMethod w
    = Ok filteredWindows
        {| icon_heap := icon_heap w1;
           win_heap :=
             <[filteredWindows :=
                 filter (λ x, ¬ window_hidden (hidden_set self) tracker x) ws]>
               (win_heap w1);
           popup_items := popup_items w1;
           popup_switcherList := popup_switcherList w1;
           trace := trace w1 ++ es |}
    ∧ count_events is_settings_read es
      = match _settings self with Some _ => length ws | None => 0 end
    ∧ count_events is_tracker_lookup es
      = match hidden_set self with [] => 0 | _ => length ws end
    ∧ (ext_flavour self = GithubIo → count_events is_log es = 0)
    ∧ removal_order es = [] ∧ (∀ arr, splice_order arr es = []).
Proof.
  intros Horig Hws. unfold filtered_window_list.
  rewrite (bind_ok _ _ _ _ _ (log_run _ _ _)).
  rewrite (bind_ok _ _ _ _ _ Horig).
  unfold bind at 1. unfold get_world at 1. rewrite Hws.
  destruct (filterM_counts self tracker ws w1)
    as (es & Hf & Hr & Ht & Hl & Hrm & Hs).
  rewrite (bind_ok _ _ _ _ _ Hf).
  unfold bind at 1. unfold alloc_windows at 1.
  rewrite (bind_ok _ _ _ _ _ (log_run _ _ _)). unfold ret.
  unfold add_events, set_win_heap. cbn [icon_heap win_heap popup_items
    popup_switcherList trace]. rewrite <-app_assoc.
  eexists _, _. split; [reflexivity|].
  rewrite !count_events_app, removal_order_app, Hr, Ht, Hrm,
    removal_order_log, !count_events_log_events by done.
  split; [lia|]. split; [lia|]. split.
  { intros Hio. rewrite Hl, count_is_log_log_events by done. done. }
  split; [done|]. intros arr. by rewrite splice_order_app, Hs, splice_order_log.
Qed.

(** X14: the window form of the predicate is the application form applied
    to what the tracker resolves: for every extension, tracker and window
    the two return the same answer. *)
Theorem window_form_is_app_form_of_tracker (self : Extension)
    (tracker : Window → option App) (window : Window) :
  ∃ b, returns (_shouldHideWindow self tracker window) b
       ∧ returns (_shouldHideApp self (tracker window)) b.
Proof.
  exists (window_hidden (hidden_set self) tracker window). split.
  - intros w. destruct (shouldHideWindow_run self tracker window w) as (es & -> & _).
    by eexists.
  - intros w. unfold window_hidden. destruct (tracker window) as [a|].
    + destruct (shouldHideApp_run self a w) as (es & ->). by eexists.
    + rewrite shouldHideApp_none_run. by eexists.
Qed.

(** X15: a window-list override has no effect on the switcher besides the
    array it returns: the icon arrays, [this._items] and
    [this._switcherList] are as the original routine left them, the window
    arrays gain the returned one and nothing is spliced or removed. *)
Theorem window_list_override_frame k override (self : Extension)
    (tracker : Window → option App) (originalMethod : M loc)
    (w w1 : World) (windows : loc) (ws : list Window) :
  (k, override) ∈ window_list_overrides →
  originalMethod (add_events (log_events self (LogCalled k)) w) = Ok windows w1 →
  win_heap w1 !! windows = Some ws →
  ∃ filteredWindows w2 filtered es,
    override self tracker originalMethod w = Ok filteredWindows w2
    ∧ icon_heap w2 = icon_heap w1
    ∧ popup_items w2 = popup_items w1
    ∧ popup_switcherList w2 = popup_switcherList w1
    ∧ win_heap w2 = <[filteredWindows := filtered]> (win_heap w1)
    ∧ trace w2 = trace w1 ++ es
    ∧ removal_order es = []
    ∧ (∀ arr, splice_order arr es = []).
Proof.
  intros ->%window_list_overrides_cases Horig Hws.
  destruct (filtered_window_list_world k self tracker originalMethod w windows
              w1 ws Horig Hws) as (l' & es & Hrun & _ & _ & _ & Hrm & Hs).
  eexists l', _, _, es. split; [exact Hrun|]. done.
Qed.

Lemma window_list_override_frame_witness :
  ∃ filteredWindows w2,
    WindowSwitcherPopup_getWindowList (hides_calculator GithubCom)
      example_tracker (ret 7) example_switcher = Ok filteredWindows w2
    ∧ icon_heap w2 = icon_heap example_switcher
    ∧ popup_switcherList w2 = popup_switcherList example_switcher.
Proof.
  destruct (window_list_override_frame WindowSwitcherPopup
              WindowSwitcherPopup_getWindowList (hides_calculator GithubCom)
              example_tracker (ret 7) example_switcher
              (add_events [EvLog (LogCalled WindowSwitcherPopup)] example_switcher)
              7 [1; 3; 2])
    as (l' & w2 & filtered & es & Hrun & Hicons & _ & Hsl & _).
  - unfold window_list_overrides. apply list_elem_of_here.
  - reflexivity.
  - reflexivity.
  - exists l', w2. split; [exact Hrun|]. split; [exact Hicons|exact Hsl].
Defined.

(** X16: the settings are read afresh for every window, and the tracker is
    asked once per window unless the hidden set is empty: during a
    window-list override on [ws] the number of [get_strv] calls is the
    length of [ws] (none while the settings reference is null), the number
    of tracker lookups is the length of [ws] for a non-empty hidden set and
    zero for an empty one, and the [.io] flavour logs nothing. *)
Theorem window_list_override_queries k override (self : Extension)
    (tracker : Window → option App) (originalMethod : M loc)
    (w w1 : World) (windows : loc) (ws : list Window) :
  (k, override) ∈ window_list_overrides →
  originalMethod (add_events (log_events self (LogCalled k)) w) = Ok windows w1 →
  win_heap w1 !! windows = Some ws →
  ∃ filteredWindows w2 es,
    override self tracker originalMethod w = Ok filteredWindows w2
    ∧ trace w2 = trace w1 ++ es
    ∧ count_events is_settings_read es
      = match _settings self with Some _ => length ws | None => 0 end
    ∧ count_events is_tracker_lookup es
      = match hidden_set self with [] => 0 | _ => length ws end
    ∧ (ext_flavour self = GithubIo → count_events is_log es = 0).
Proof.
  intros ->%window_list_overrides_cases Horig Hws.
  destruct (filtered_window_list_world k self tracker originalMethod w windows
              w1 ws Horig Hws) as (l' & es & Hrun & Hr & Ht & Hl & _).
  eexists l', _, es. split; [exact Hrun|]. done.
Qed.

Lemma window_list_override_queries_witness :
  ∃ filteredWindows w2 es,
    WindowCyclerPopup_getWindows (hides_calculator GithubIo) example_tracker
      (ret 7) example_switcher = Ok filteredWindows w2
    ∧ trace w2 = trace example_switcher ++ es
    ∧ count_events is_settings_read es = 3
    ∧ count_events is_tracker_lookup es = 3.
Proof.
  destruct (window_list_override_queries WindowCyclerPopup
              WindowCyclerPopup_getWindows (hides_calculator GithubIo)
              example_tracker (ret 7) example_switcher
              (add_events [] example_switcher) 7 [1; 3; 2])
    as (l' & w2 & es & Hrun & Htrace & Hr & Ht & _).
  - unfold window_list_overrides. apply list_elem_of_further, list_elem_of_here.
  - reflexivity.
  - reflexivity.
  - exists l', w2, es. split; [exact Hrun|]. split; [exact Htrace|].
    split; [exact Hr|exact Ht].
Defined.

(** *** The main switcher, continued *)

Lemma length_marked_from {A} (P : A → bool) (l : list A) i :
  length (marked_from P l i) + length (filter (λ x, ¬ P x) l) = length l.
Proof.
  revert i. induction l as [|x l IH]; intros i; [done|]. simpl.
  rewrite length_app. specialize (IH (S i)). destruct (P x) eqn:E.
  - rewrite filter_cons_False by (rewrite E; intros Hn; by apply Hn).
    simpl. lia.
  - rewrite filter_cons_True by (rewrite E; intros Hn; exact Hn).
    simpl. lia.
Qed.

Lemma marked_from_none {A} (P : A → bool) (l : list A) i :
  Forall (λ x, P x = false) l →
  marked_from P l i = [] ∧ filter (λ x, ¬ P x) l = l.
Proof.
  revert i. induction l as [|x l IH]; intros i Hall; [done|].
  apply Forall_cons in Hall as [Hx Hl]. destruct (IH (S i) Hl) as [Hm Hf].
  simpl. rewrite Hx, Hm. split; [done|].
  rewrite filter_cons_True by (rewrite Hx; intros Hn; exact Hn). by rewrite Hf.
Qed.

(** X17: the main switcher loses as many entries as are hidden, in both
    lists: on a switcher as the original initialization builds it, the
    number of [removeItem] calls and the length of what remains of the icons
    array add up to the original length, and the visual list ends as long as
    the icons array. *)
Theorem main_switcher_lengths (self : Extension) (originalMethod : M unit)
    (w w1 : World) (arr : loc) (s : SwitcherList) (items : list icon_entry) :
  originalMethod (add_events (log_events self LogInitCalled) w) = Ok tt w1 →
  popup_items w1 = Some arr →
  popup_switcherList w1 = Some s →
  icons s = Some arr →
  removeItem s = true →
  icon_heap w1 !! arr = Some items →
  length (sl_items s) = length items →
  ∃ w2 s2 es remaining,
    AppSwitcherPopup_init self originalMethod w = Ok tt w2
    ∧ trace w2 = trace w1 ++ es
    ∧ icon_heap w2 !! arr = Some remaining
    ∧ popup_switcherList w2 = Some s2
    ∧ length (removal_order es) + length remaining = length items
    ∧ length (sl_items s2) = length remaining
    ∧ win_heap w2 = win_heap w1.
Proof.
  intros Horig Hitems Hsl Hicons Hrm Harr Hlen.
  destruct w1 as [h wh pi psl t], s as [ic rm v]. simpl in *. subst.
  assert (Hpre : (log self LogInitCalled ;; originalMethod) w = Ok tt
            {| icon_heap := h; win_heap := wh; popup_items := Some arr;
               popup_switcherList :=
                 Some {| icons := Some arr; removeItem := true; sl_items := v |};
               trace := t |}).
  { by rewrite (bind_ok _ _ _ _ _ (log_run _ _ _)). }
  destruct (AppSwitcherPopup_init_run self originalMethod w h wh arr v t items
              Hpre Harr) as (es & Hrun & Hrem & Hspl).
  eexists _, _, es, _. split; [exact Hrun|]. cbn.
  split; [done|]. split; [by rewrite lookup_insert_eq|]. split; [done|].
  split; [|split; [|done]].
  - rewrite Hrem, length_reverse. apply length_marked_from.
  - rewrite <-(delete_each_marked (entry_hidden (hidden_set self)) items).
    by apply length_delete_each.
Qed.

Lemma main_switcher_lengths_witness :
  ∃ w2 es remaining,
    AppSwitcherPopup_init (hides_calculator GithubIo) (ret tt) example_switcher
    = Ok tt w2
    ∧ trace w2 = trace example_switcher ++ es
    ∧ icon_heap w2 !! 0 = Some remaining
    ∧ length (removal_order es) + length remaining = 3.
Proof.
  destruct (main_switcher_lengths (hides_calculator GithubIo) (ret tt)
              example_switcher example_switcher 0
              {| icons := Some 0; removeItem := true; sl_items := [10; 11; 12] |}
              [icon_of calculator; Some {| app := None |}; icon_of files])
    as (w2 & s2 & es & remaining & Hrun & Htrace & Harr & _ & Hlen & _);
    try reflexivity.
  exists w2, es, remaining. split; [exact Hrun|]. split; [exact Htrace|].
  split; [exact Harr|exact Hlen].
Defined.

(** X18: when no entry of the switcher belongs to a hidden application, in
    particular when the hidden set is empty, the main-switcher override
    leaves the switcher as the original initialization built it: no
    [splice], no [removeItem], and a world that differs only by the events
    of the queries and log lines. *)
Theorem main_switcher_nothing_hidden (self : Extension) (originalMethod : M unit)
    (w w1 : World) (arr : loc) (s : SwitcherList) (items : list icon_entry) :
  originalMethod (add_events (log_events self LogInitCalled) w) = Ok tt w1 →
  popup_items w1 = Some arr →
  popup_switcherList w1 = Some s →
  icons s = Some arr →
  removeItem s = true →
  icon_heap w1 !! arr = Some items →
  Forall (λ e, ∀ a, entry_app e = Some a → app_id a ∉ hidden_set self) items →
  ∃ es,
    AppSwitcherPopup_init self originalMethod w = Ok tt (add_events es w1)
    ∧ removal_order es = []
    ∧ splice_order arr es = [].
Proof.
  intros Horig Hitems Hsl Hicons Hrm Harr Hvis.
  destruct w1 as [h wh pi psl t], s as [ic rm v]. simpl in *. subst.
  assert (Hpre : (log self LogInitCalled ;; originalMethod) w = Ok tt
            {| icon_heap := h; win_heap := wh; popup_items := Some arr;
               popup_switcherList :=
                 Some {| icons := Some arr; removeItem := true; sl_items := v |};
               trace := t |}).
  { by rewrite (bind_ok _ _ _ _ _ (log_run _ _ _)). }
  assert (Hnone : Forall (λ e, entry_hidden (hidden_set self) e = false) items).
  { eapply Forall_impl; [exact Hvis|]. intros e He. unfold entry_hidden.
    destruct (entry_app e) as [a|] eqn:Ea; [|done].
    apply includes_false, (He a Ea). }
  destruct (marked_from_none (entry_hidden (hidden_set self)) items 0 Hnone)
    as [Hmarks Hfilter].
  destruct (AppSwitcherPopup_init_run self originalMethod w h wh arr v t items
              Hpre Harr) as (es & Hrun & Hrem & Hspl).
  rewrite Hmarks, Hfilter in *. exists es. split; [|done].
  rewrite Hrun. unfold add_events. cbn. by rewrite insert_id.
Qed.

Lemma main_switcher_nothing_hidden_witness :
  ∃ es,
    AppSwitcherPopup_init (with_hidden GithubCom []) (ret tt) example_switcher
    = Ok tt (add_events es example_switcher).
Proof.
  destruct (main_switcher_nothing_hidden (with_hidden GithubCom []) (ret tt)
              example_switcher
              (add_events [EvLog LogInitCalled] example_switcher) 0
              {| icons := Some 0; removeItem := true; sl_items := [10; 11; 12] |}
              [icon_of calculator; Some {| app := None |}; icon_of files])
    as (es & Hrun & _); try reflexivity.
  - apply Forall_forall. intros e _ a _. apply not_elem_of_nil.
  - exists ([EvLog LogInitCalled] ++ es). rewrite Hrun.
    by rewrite add_events_add_events.
Defined.

(** X19: a switcher list that has neither [removeItem] nor an [icons] field
    makes the two flavours part ways. Nothing is removed, but the
    assignment [this._items = this._switcherList.icons] loses the items: the
    [.io] flavour returns with [this._items] undefined, and the [.com]
    flavour, whose last log line reads [this._items.length], ends in a
    [TypeError]. *)
Theorem main_switcher_list_without_icons (self : Extension)
    (originalMethod : M unit) (w w1 : World) (arr : loc) (s : SwitcherList)
    (items : list icon_entry) :
  originalMethod (add_events (log_events self LogInitCalled) w) = Ok tt w1 →
  popup_items w1 = Some arr →
  icon_heap w1 !! arr = Some items →
  items ≠ [] →
  popup_switcherList w1 = Some s →
  icons s = None →
  removeItem s = false →
  match ext_flavour self with
  | GithubIo =>
      ∃ es, AppSwitcherPopup_init self originalMethod w
            = Ok tt (set_popup_items None (add_events es w1))
            ∧ removal_order es = []
  | GithubCom =>
      ∃ w2, AppSwitcherPopup_init self originalMethod w
            = Throw (TypeError "this._items is undefined") w2
            ∧ popup_items w2 = None
            ∧ icon_heap w2 = icon_heap w1
  end.
Proof.
  intros Horig Hitems Harr Hne Hs Hicons Hrm.
  assert (Hrun : ∃ es,
            AppSwitcherPopup_init self originalMethod w
            = log_filtered self
                (length (marked_from (entry_hidden (hidden_set self)) items 0))
                (length items) (set_popup_items None (add_events es w1))
            ∧ removal_order es = []).
  { unfold AppSwitcherPopup_init.
    rewrite (bind_ok _ _ _ _ _ (log_run _ _ _)).
    rewrite (bind_ok _ _ _ _ _ Horig).
    unfold bind at 1. unfold get_world at 1. rewrite Hitems, Harr.
    destruct items as [|e items']; [done|]. cbn [length Nat.ltb Nat.leb].
    rewrite (bind_ok _ _ _ _ _ (getHiddenApps_run _ _)).
    rewrite (bind_ok _ _ _ _ _ (log_run _ _ _)).
    match goal with
    | |- ∃ _, bind (mark_loop ?s ?H ?it ?i ?acc) _ ?w0 = _ ∧ _ =>
        destruct (mark_loop_run s H it i acc w0) as (es1 & Hmark & Hr1 & _);
        rewrite app_nil_l in Hmark; rewrite (bind_ok _ _ _ _ _ Hmark);
        clear Hmark
    end.
    rewrite !add_events_add_events.
    rewrite (bind_ok _ _ _ _ _
               (remove_loop_no_removeItem _ (add_events _ w1) s Hs Hrm)).
    unfold bind at 1. unfold update_items_reference.
    unfold bind at 1. unfold get_world at 1.
    cbn [add_events popup_switcherList]. rewrite Hs, Hicons.
    eexists. split; [reflexivity|].
    by rewrite !removal_order_app, removal_order_settings, removal_order_log, Hr1. }
  destruct Hrun as (es & Hrun & Hrem). rewrite Hrun. unfold log_filtered.
  destruct (ext_flavour self).
  - unfold bind, get_world. cbn [popup_items set_popup_items]. by eexists.
  - by exists es.
Qed.

Lemma main_switcher_list_without_icons_witness :
  ∃ es,
    AppSwitcherPopup_init (hides_calculator GithubIo) (ret tt)
      (set_popup_switcherList
         (Some {| icons := None; removeItem := false; sl_items := [] |})
         example_switcher)
    = Ok tt (set_popup_items None
               (add_events es
                  (set_popup_switcherList
                     (Some {| icons := None; removeItem := false;
                              sl_items := [] |})
                     example_switcher))).
Proof.
  destruct (main_switcher_list_without_icons (hides_calculator GithubIo) (ret tt)
              (set_popup_switcherList
                 (Some {| icons := None; removeItem := false; sl_items := [] |})
                 example_switcher)
              (set_popup_switcherList
                 (Some {| icons := None; removeItem := false; sl_items := [] |})
                 example_switcher)
              0 {| icons := None; removeItem := false; sl_items := [] |}
              [icon_of calculator; Some {| app := None |}; icon_of files])
    as (es & Hrun & _); try reflexivity; [discriminate|].
  exists es. exact Hrun.
Defined.

(** X20: a switcher list that has [removeItem] but no [icons] field stops
    the override at the first removal: if some entry is hidden, the
    [splice] on the missing array raises a [TypeError] before [removeItem]
    is called at all, so the visual list, [this._items] and the icon arrays
    are as the original routine left them. *)
Theorem main_switcher_splice_without_icons (self : Extension)
    (originalMethod : M unit) (w w1 : World) (arr : loc) (s : SwitcherList)
    (items : list icon_entry) :
  originalMethod (add_events (log_events self LogInitCalled) w) = Ok tt w1 →
  popup_items w1 = Some arr →
  icon_heap w1 !! arr = Some items →
  popup_switcherList w1 = Some s →
  icons s = None →
  removeItem s = true →
  Exists (λ e, entry_hidden (hidden_set self) e = true) items →
  ∃ es,
    AppSwitcherPopup_init self originalMethod w
    = Throw (TypeError "this._switcherList.icons is undefined")
        (add_events es w1)
    ∧ removal_order es = []
    ∧ (∀ a, splice_order a es = []).
Proof.
  intros Horig Hitems Harr Hs Hicons Hrm Hex.
  assert (Hmarks : marked_from (entry_hidden (hidden_set self)) items 0 ≠ []).
  { apply Exists_exists in Hex as (e & [i He]%list_elem_of_lookup & Hhid).
    intros Hnil.
    assert (i ∈ marked_from (entry_hidden (hidden_set self)) items 0) as Hin.
    { apply marked_from_lookup. exists e. rewrite Nat.sub_0_r.
      split; [done|]. split; [lia|done]. }
    rewrite Hnil in Hin. by apply elem_of_nil in Hin. }
  unfold AppSwitcherPopup_init.
  rewrite (bind_ok _ _ _ _ _ (log_run _ _ _)).
  rewrite (bind_ok _ _ _ _ _ Horig).
  unfold bind at 1. unfold get_world at 1. rewrite Hitems, Harr.
  destruct (0 <? length items) eqn:Elen.
  2: { destruct items; [|done]. by apply Exists_nil in Hex. }
  rewrite (bind_ok _ _ _ _ _ (getHiddenApps_run _ _)).
  rewrite (bind_ok _ _ _ _ _ (log_run _ _ _)).
  match goal with
  | |- ∃ _, bind (mark_loop ?s ?H ?it ?i ?acc) _ ?w0 = _ ∧ _ =>
      destruct (mark_loop_run s H it i acc w0) as (es1 & Hmark & Hr1 & Hs1);
      rewrite app_nil_l in Hmark; rewrite (bind_ok _ _ _ _ _ Hmark);
      clear Hmark
  end.
  rewrite !add_events_add_events.
  destruct (reverse (marked_from (entry_hidden (hidden_set self)) items 0))
    as [|idx rest] eqn:Erev.
  { apply (f_equal reverse) in Erev. rewrite reverse_involutive in Erev. done. }
  unfold bind at 1. cbn [remove_loop]. unfold bind at 1. unfold get_world at 1.
  cbn [add_events popup_switcherList]. rewrite Hs, Hrm.
  unfold bind at 1. unfold bind at 1. unfold splice_icons. rewrite Hicons.
  unfold throw. eexists. split; [reflexivity|].
  rewrite !removal_order_app, removal_order_settings, removal_order_log, Hr1.
  split; [done|]. intros a.
  by rewrite !splice_order_app, splice_order_settings, splice_order_log, Hs1.
Qed.

Lemma main_switcher_splice_without_icons_witness :
  ∃ es,
    AppSwitcherPopup_init (hides_calculator GithubIo) (ret tt)
      (set_popup_switcherList
         (Some {| icons := None; removeItem := true; sl_items := [10; 11; 12] |})
         example_switcher)
    = Throw (TypeError "this._switcherList.icons is undefined")
        (add_events es
           (set_popup_switcherList
              (Some {| icons := None; removeItem := true;
                       sl_items := [10; 11; 12] |})
              example_switcher)).
Proof.
  destruct (main_switcher_splice_without_icons (hides_calculator GithubIo) (ret tt)
              (set_popup_switcherList
                 (Some {| icons := None; removeItem := true;
                          sl_items := [10; 11; 12] |})
                 example_switcher)
              (set_popup_switcherList
                 (Some {| icons := None; removeItem := true;
                          sl_items := [10; 11; 12] |})
                 example_switcher)
              0 {| icons := None; removeItem := true; sl_items := [10; 11; 12] |}
              [icon_of calculator; Some {| app := None |}; icon_of files])
    as (es & Hrun & _); try reflexivity.
  - apply Exists_cons_hd. reflexivity.
  - exists es. exact Hrun.
Defined.
